(** * GeneratorDataManager (Qt3DRender/private/texturedatamanager_p.h)

    A shallow embedding of the class template

      template <class GeneratorPtr, class DataPtr, class ReferencedType>
      class GeneratorDataManager

    and of its two instantiations, together with the properties of the
    cache that the documentation of the class states.

    Conventions of the embedding.
    - [GeneratorPtr] is a non-null shared handle.  Leibniz equality on it is
      the identity of the handle ([QSharedPointer::operator==], used by
      [QVector::contains] in [pendingGenerators]); [deref_eq a b] is the
      comparison of the pointed-to generators, [*a == *b].
    - [DataPtr] is a nullable shared handle: [None] is the null handle
      [DataPtr()], [Some d] a handle to the data [d].
    - [QVector<Entry> m_data] is a [list Entry]; an [Entry *] into the
      vector is an index, [nullptr] is [None].
    - [QMutex m_mutex] is observed through the events [Acquire] and
      [Release] that a [QMutexLocker] leaves in the trace of a call;
      [qWarning()] leaves a [Warning]; a failed [Q_ASSERT] leaves
      [AssertFailure]. *)

From stdpp Require Import base option list strings.

Inductive Event : Type :=
  | Acquire
  | Release
  | Warning (msg : string)
  | AssertFailure.

Global Instance Event_eq_dec : EqDecision Event.
Proof. solve_decision. Defined.

(** The mutex events of a trace, and the traces of a call that takes the
    mutex first, gives it back last and does neither in between. *)
Definition lockEvents (t : list Event) : list Event :=
  filter (λ e, e = Acquire ∨ e = Release) t.

Definition heldThroughout (t : list Event) : bool :=
  bool_decide (head t = Some Acquire ∧ last t = Some Release
               ∧ lockEvents t = [Acquire; Release]).

Section GeneratorDataManager.

Context {GeneratorPtr Data ReferencedType : Type}.
Context `{!EqDecision GeneratorPtr, !EqDecision ReferencedType}.

(** [*a == *b] on the pointed-to generators. *)
Variable deref_eq : GeneratorPtr → GeneratorPtr → bool.

Definition DataPtr : Type := option Data.

Record Entry : Type := mkEntry {
  generator : GeneratorPtr;
  referencingObjects : list ReferencedType;
  data : DataPtr
}.

(** ** Calls on the manager

    A member function is a function of the contents of [m_data] that
    returns its result, the new contents and the events it produced. *)

Definition M (A : Type) : Type := list Entry → A * list Entry * list Event.

Global Instance M_ret : MRet M := λ A (a : A) m_data, (a, m_data, []).

Global Instance M_bind : MBind M := λ A B (k : A → M B) (m : M A) m_data,
  let '(a, m_data1, t1) := m m_data in
  let '(b, m_data2, t2) := k a m_data1 in
  (b, m_data2, t1 ++ t2).

Definition gets {A : Type} (f : list Entry → A) : M A :=
  λ m_data, (f m_data, m_data, []).

Definition modify (f : list Entry → list Entry) : M unit :=
  λ m_data, ((), f m_data, []).

Definition emit (e : Event) : M unit :=
  λ m_data, ((), m_data, [e]).

(** [QMutexLocker lock(&m_mutex);] at the head of a body: the mutex is
    taken when the locker is constructed and given back when the body is
    left, on whichever [return]. *)
Definition QMutexLocker {A : Type} (body : M A) : M A :=
  emit Acquire ;; a ← body; emit Release ;; mret a.

Definition qWarning (msg : string) : M unit := emit (Warning msg).

Definition Q_ASSERT (cond : bool) : M unit :=
  if cond then mret () else emit AssertFailure.

Definition result {A : Type} (x : A * list Entry * list Event) : A := x.1.1.
Definition state {A : Type} (x : A * list Entry * list Event) : list Entry := x.1.2.
Definition trace {A : Type} (x : A * list Entry * list Event) : list Event := x.2.

(** ** Private helpers *)

(** The scan of [findEntry]: the index of the first entry whose generator
    compares equal, by value, to [g]. *)
Fixpoint findEntry_scan (g : GeneratorPtr) (m_data : list Entry) : option nat :=
  match m_data with
  | [] => None
  | e :: rest =>
      if deref_eq (generator e) g then Some 0
      else S <$> findEntry_scan g rest
  end.

Definition findEntry (g : GeneratorPtr) : M (option nat) :=
  gets (findEntry_scan g).

Definition createEntry (g : GeneratorPtr) : M (option nat) :=
  let newEntry := mkEntry g [] None in
  modify (λ m_data, m_data ++ [newEntry]) ;;
  gets (λ m_data, Some (length m_data - 1)).

(** [entry->field = ...] through an [Entry *]. *)
Definition update (entry : option nat) (f : Entry → Entry) : M unit :=
  match entry with
  | Some i => modify (alter f i)
  | None => mret ()
  end.

Definition addReference (r : ReferencedType) (e : Entry) : Entry :=
  if bool_decide (r ∈ referencingObjects e) then e
  else mkEntry (generator e) (referencingObjects e ++ [r]) (data e).

Definition setData (d : DataPtr) (e : Entry) : Entry :=
  mkEntry (generator e) (referencingObjects e) d.

(** ** Public member functions *)

Definition requestData (g : GeneratorPtr) (r : ReferencedType) : M bool :=
  QMutexLocker (
    entry ← findEntry g;
    let needsToBeCreated := bool_decide (entry = None) in
    entry ← (if needsToBeCreated then createEntry g else mret entry);
    Q_ASSERT (bool_decide (is_Some entry)) ;;
    update entry (addReference r) ;;
    mret needsToBeCreated).

Definition removeAll (r : ReferencedType) (l : list ReferencedType) : list ReferencedType :=
  filter (λ x, x ≠ r) l.

(** The loop of [releaseData] over the entries not yet visited.  The
    [erase] is followed by [return]: the entries after the erased one are
    not visited. *)
Fixpoint releaseData_loop (g : GeneratorPtr) (r : ReferencedType)
    (m_data : list Entry) : list Entry :=
  match m_data with
  | [] => []
  | entry :: rest =>
      if deref_eq (generator entry) g then
        let objs := removeAll r (referencingObjects entry) in
        if bool_decide (objs = []) then rest
        else mkEntry (generator entry) objs (data entry) :: releaseData_loop g r rest
      else entry :: releaseData_loop g r rest
  end.

Definition releaseData (g : GeneratorPtr) (r : ReferencedType) : M unit :=
  QMutexLocker (modify (releaseData_loop g r)).

Definition getData (g : GeneratorPtr) : M DataPtr :=
  QMutexLocker (
    entry ← findEntry g;
    match entry with
    | Some i => gets (λ m_data, m_data !! i ≫= data)
    | None => mret None
    end).

(** The loop of [pendingGenerators]; [ret.contains] compares handles. *)
Fixpoint pendingGenerators_loop (m_data : list Entry) (ret : list GeneratorPtr)
    : list GeneratorPtr :=
  match m_data with
  | [] => ret
  | entry :: rest =>
      if bool_decide (data entry = None) && negb (bool_decide (generator entry ∈ ret))
      then pendingGenerators_loop rest (ret ++ [generator entry])
      else pendingGenerators_loop rest ret
  end.

Definition pendingGenerators : M (list GeneratorPtr) :=
  QMutexLocker (gets (λ m_data, pendingGenerators_loop m_data [])).

Definition assignData (g : GeneratorPtr) (d : DataPtr) : M unit :=
  QMutexLocker (
    entry ← findEntry g;
    match entry with
    | None =>
        qWarning "[TextureDataManager] assignData() called with non-existent generator"
    | Some _ => update entry (setData d)
    end).

Definition contains (g : GeneratorPtr) : M bool :=
  entry ← findEntry g;
  mret (bool_decide (entry ≠ None)).

(** ** Sequences of calls *)

Inductive Call : Type :=
  | RequestData (g : GeneratorPtr) (r : ReferencedType)
  | ReleaseData (g : GeneratorPtr) (r : ReferencedType)
  | GetData (g : GeneratorPtr)
  | PendingGenerators
  | AssignData (g : GeneratorPtr) (d : DataPtr)
  | Contains (g : GeneratorPtr).

(** The contents of [m_data] and the events left by one call. *)
Definition exec (c : Call) (m_data : list Entry) : list Entry * list Event :=
  match c with
  | RequestData g r => let x := requestData g r m_data in (state x, trace x)
  | ReleaseData g r => let x := releaseData g r m_data in (state x, trace x)
  | GetData g => let x := getData g m_data in (state x, trace x)
  | PendingGenerators => let x := pendingGenerators m_data in (state x, trace x)
  | AssignData g d => let x := assignData g d m_data in (state x, trace x)
  | Contains g => let x := contains g m_data in (state x, trace x)
  end.

Definition run (cs : list Call) (m_data : list Entry) : list Entry :=
  foldl (λ s c, (exec c s).1) m_data cs.

(** The manager as constructed: [GeneratorDataManager() {}]. *)
Definition GeneratorDataManager : list Entry := [].

(** A call that hands a null data handle to [assignData]. *)
Definition assignsNull (c : Call) : bool :=
  match c with
  | AssignData _ None => true
  | _ => false
  end.

(** ** Properties of the contents *)

(** The entries whose generator compares equal, by value, to [g]. *)
Definition entriesFor (g : GeneratorPtr) (m_data : list Entry) : list Entry :=
  filter (λ e, deref_eq (generator e) g = true) m_data.

Definition oneEntryPerValue (m_data : list Entry) : Prop :=
  ∀ g, length (entriesFor g m_data) ≤ 1.

Definition allReferenced (m_data : list Entry) : Prop :=
  Forall (λ e, referencingObjects e ≠ []) m_data.

Definition referencesNoDup (m_data : list Entry) : Prop :=
  Forall (λ e, NoDup (referencingObjects e)) m_data.

Definition wellFormed (m_data : list Entry) : Prop :=
  oneEntryPerValue m_data ∧ allReferenced m_data ∧ referencesNoDup m_data.

(** A call that assigns to, or releases, the entry whose generator is the
    handle [g]. *)
Definition concerns (g : GeneratorPtr) (c : Call) : bool :=
  match c with
  | AssignData g' _ | ReleaseData g' _ => deref_eq g g'
  | _ => false
  end.

(** A call that hands a non-null data handle to [assignData] for a
    generator of the value of [g]. *)
Definition givesDataTo (g : GeneratorPtr) (c : Call) : bool :=
  match c with
  | AssignData g' (Some _) => deref_eq g g'
  | _ => false
  end.

(** A call that hands a null data handle to [assignData] for a generator
    of the value of [g]. *)
Definition clearsDataOf (g : GeneratorPtr) (c : Call) : bool :=
  match c with
  | AssignData g' None => deref_eq g g'
  | _ => false
  end.

(** The entry that the calls reach for [g]. *)
Definition entryOf (g : GeneratorPtr) (m_data : list Entry) : option Entry :=
  findEntry_scan g m_data ≫= λ i, m_data !! i.

(** An entry for [g] exists and holds data. *)
Definition ready (g : GeneratorPtr) (m_data : list Entry) : bool :=
  bool_decide (is_Some (result (getData g m_data))).

End GeneratorDataManager.

Arguments Entry : clear implicits.
Arguments Call : clear implicits.
Arguments M : clear implicits.
Arguments DataPtr : clear implicits.

(** ** The two managers of the header *)

(** Modelled from the spec: [QTextureImageDataGeneratorPtr],
    [QTextureImageDataPtr] and [Qt3DCore::QNodeId] are declared in headers
    outside this unit.  A generator handle is an address together with the
    description of the image it generates; [operator==] on the pointed-to
    generators compares the descriptions.  Data is named by a number, and
    a node id is its number. *)
Module TextureImageDataManager.

Record QTextureImageDataGeneratorPtr : Type := mkGenerator {
  address : nat;
  description : nat
}.

Global Instance QTextureImageDataGeneratorPtr_eq_dec :
  EqDecision QTextureImageDataGeneratorPtr.
Proof. solve_decision. Defined.

Definition QTextureImageData : Type := nat.
Definition QNodeId : Type := nat.

Definition deref_eq (a b : QTextureImageDataGeneratorPtr) : bool :=
  bool_decide (description a = description b).

Definition TEntry : Type := Entry QTextureImageDataGeneratorPtr QTextureImageData QNodeId.
Definition TCall : Type := Call QTextureImageDataGeneratorPtr QTextureImageData QNodeId.

(** Two handles to equal generators, and a handle to another generator. *)
Definition gA : QTextureImageDataGeneratorPtr := mkGenerator 100 7.
Definition gA' : QTextureImageDataGeneratorPtr := mkGenerator 200 7.
Definition gB : QTextureImageDataGeneratorPtr := mkGenerator 300 8.

(** Sequences of calls on the manager. *)
Definition none : list TCall := [].
Definition shared : list TCall := [RequestData gA 1; RequestData gA' 2].
Definition sharedReleased : list TCall := shared ++ [ReleaseData gA 1].
Definition other : list TCall := [RequestData gB 1].
Definition loaded : list TCall := [RequestData gA 1; AssignData gA (Some 5)].


(** Calls that leave the entry of [gA] in place and give it no data: a
    second referencing object, the release of the first, a null data
    handle for it, and data for another generator. *)
Definition whileReferenced : list TCall :=
  [RequestData gA' 2; ReleaseData gA 1; AssignData gA' None; AssignData gB (Some 6)].

(** Data for two generators, and calls that clear the data of [gB] only. *)
Definition loadedBoth : list TCall :=
  [RequestData gA 1; AssignData gA (Some 5); RequestData gB 3; AssignData gB (Some 7)].
Definition clearingOther : list TCall :=
  [RequestData gA' 2; ReleaseData gA 1; AssignData gB None; AssignData gA' (Some 6)].

(** A cache with data for one generator and a pending entry for another. *)
Definition mixed : list TCall :=
  [RequestData gA 2; AssignData gA (Some 5); RequestData gB 3].

End TextureImageDataManager.

(** Modelled from the spec: [QTextureGeneratorPtr], [QTextureDataPtr] and
    [GLTexture] are declared in headers outside this unit.  The manager
    differs from the one above in the referencing objects only, which are
    pointers to textures, here their addresses. *)
Module TextureDataManager.

Definition QTextureGeneratorPtr : Type :=
  TextureImageDataManager.QTextureImageDataGeneratorPtr.
Definition QTextureData : Type := nat.
Definition GLTexturePtr : Type := nat.

Definition deref_eq : QTextureGeneratorPtr → QTextureGeneratorPtr → bool :=
  TextureImageDataManager.deref_eq.

End TextureDataManager.

(** * Properties *)

Section Facts.

Context {GeneratorPtr Data ReferencedType : Type}.
Context `{!EqDecision GeneratorPtr, !EqDecision ReferencedType}.
Variable deref_eq : GeneratorPtr → GeneratorPtr → bool.

Local Abbreviation Entry := (Entry GeneratorPtr Data ReferencedType).

Implicit Types (g : GeneratorPtr) (r : ReferencedType) (d : DataPtr Data).
Implicit Types (s : list Entry) (e : Entry) (i j : nat).

(** ** The scan of [findEntry] *)

Lemma findEntry_scan_None g s :
  findEntry_scan deref_eq g s = None ↔
  Forall (λ e, deref_eq (generator e) g = false) s.
Proof.
  induction s as [|e s IH]; simpl.
  - split; [constructor | done].
  - destruct (deref_eq (generator e) g) eqn:He.
    + split; [done | intros H; inversion H; congruence].
    + rewrite fmap_None, IH. split.
      * by constructor.
      * by inversion 1.
Qed.

Lemma findEntry_scan_Some g s i :
  findEntry_scan deref_eq g s = Some i ↔
  ∃ e, s !! i = Some e ∧ deref_eq (generator e) g = true ∧
       Forall (λ e', deref_eq (generator e') g = false) (take i s).
Proof.
  revert i. induction s as [|e s IH]; intros i; simpl.
  - split; [done | by intros (? & ? & _)].
  - destruct (deref_eq (generator e) g) eqn:He.
    + split.
      * intros [= <-]. exists e. by repeat split.
      * intros (e' & Hl & Hm & Hb). destruct i as [|i]; [done|].
        simpl in Hb. inversion Hb; congruence.
    + rewrite fmap_Some. split.
      * intros (i' & Hi' & ->). apply IH in Hi' as (e' & ? & ? & ?).
        exists e'. repeat split; [done | done |]. by constructor.
      * intros (e' & Hl & Hm & Hb). destruct i as [|i]; simpl in *.
        { congruence. }
        exists i. split; [|done]. apply IH. exists e'.
        repeat split; [done | done |]. by inversion Hb.
Qed.

Lemma findEntry_scan_lt g s i :
  findEntry_scan deref_eq g s = Some i → i < length s.
Proof.
  intros (e & Hl & _)%findEntry_scan_Some. by eapply lookup_lt_Some.
Qed.

Lemma findEntry_scan_existsb g s :
  bool_decide (findEntry_scan deref_eq g s = None) =
  negb (existsb (λ e, deref_eq (generator e) g) s).
Proof.
  induction s as [|e s IH]; simpl; [done|].
  destruct (deref_eq (generator e) g); simpl; [done|].
  rewrite <- IH. destruct (findEntry_scan deref_eq g s); done.
Qed.

(** A projection that an update preserves is the same on the vector. *)
Lemma fmap_alter_same {B : Type} (f : Entry → B) (h : Entry → Entry) i s :
  (∀ e, f (h e) = f e) → f <$> alter h i s = f <$> s.
Proof.
  intros Hfh. revert i. induction s as [|e s IH]; intros [|i]; csimpl; [done..| |].
  - by rewrite Hfh.
  - f_equal. apply IH.
Qed.

Lemma generator_addReference r e : generator (addReference r e) = generator e.
Proof. unfold addReference. by case_bool_decide. Qed.

Lemma data_addReference r e : data (addReference r e) = data e.
Proof. unfold addReference. by case_bool_decide. Qed.

(** ** What each call does, in closed form *)

Lemma requestData_new g r s :
  findEntry_scan deref_eq g s = None →
  requestData deref_eq g r s = (true, s ++ [mkEntry g [r] None], [Acquire; Release]).
Proof.
  intros Hf. unfold requestData, QMutexLocker, findEntry, createEntry, gets, modify,
    emit, update, Q_ASSERT, mbind, M_bind, mret, M_ret. simpl. rewrite Hf. simpl.
  rewrite length_app. simpl.
  replace (length s + 1 - 1) with (length s + 0) by lia.
  by rewrite alter_app_r.
Qed.

Lemma requestData_found g r s i :
  findEntry_scan deref_eq g s = Some i →
  requestData deref_eq g r s = (false, alter (addReference r) i s, [Acquire; Release]).
Proof.
  intros Hf. unfold requestData, QMutexLocker, findEntry, createEntry, gets, modify,
    emit, update, Q_ASSERT, mbind, M_bind, mret, M_ret. simpl. by rewrite Hf.
Qed.

Lemma releaseData_eq g r s :
  releaseData deref_eq g r s = ((), releaseData_loop deref_eq g r s, [Acquire; Release]).
Proof. done. Qed.

Lemma getData_eq g s :
  getData deref_eq g s = (entryOf deref_eq g s ≫= data, s, [Acquire; Release]).
Proof.
  unfold getData, entryOf, QMutexLocker, findEntry, gets, emit, mbind at 1 2 3 4,
    M_bind, mret, M_ret. simpl.
  by destruct (findEntry_scan deref_eq g s).
Qed.

Lemma pendingGenerators_eq s :
  pendingGenerators s = (pendingGenerators_loop s [], s, [Acquire; Release]).
Proof. done. Qed.

Lemma assignData_unknown g d s :
  findEntry_scan deref_eq g s = None →
  assignData deref_eq g d s =
    ((), s, [Acquire;
             Warning "[TextureDataManager] assignData() called with non-existent generator";
             Release]).
Proof.
  intros Hf. unfold assignData, QMutexLocker, findEntry, gets, emit, qWarning, mbind,
    M_bind, mret, M_ret. simpl. by rewrite Hf.
Qed.

Lemma assignData_found g d s i :
  findEntry_scan deref_eq g s = Some i →
  assignData deref_eq g d s = ((), alter (setData d) i s, [Acquire; Release]).
Proof.
  intros Hf. unfold assignData, QMutexLocker, findEntry, gets, emit, qWarning, mbind,
    M_bind, mret, M_ret. simpl. by rewrite Hf.
Qed.

Lemma contains_eq g s :
  contains deref_eq g s = (bool_decide (findEntry_scan deref_eq g s ≠ None), s, []).
Proof. done. Qed.

(** ** The entry reached for a generator *)

Lemma entryOf_cons g a s :
  entryOf deref_eq g (a :: s) =
  if deref_eq (generator a) g then Some a else entryOf deref_eq g s.
Proof.
  unfold entryOf. simpl. destruct (deref_eq (generator a) g); [done|].
  by destruct (findEntry_scan deref_eq g s).
Qed.

Lemma entryOf_None g s :
  entryOf deref_eq g s = None ↔ findEntry_scan deref_eq g s = None.
Proof.
  induction s as [|a s IH]; [done|]. rewrite entryOf_cons. simpl.
  destruct (deref_eq (generator a) g); [done|]. by rewrite fmap_None.
Qed.

Lemma entryOf_None_Forall g s :
  entryOf deref_eq g s = None ↔ Forall (λ e, deref_eq (generator e) g = false) s.
Proof. by rewrite entryOf_None, findEntry_scan_None. Qed.

Lemma entryOf_Some g s e :
  entryOf deref_eq g s = Some e → e ∈ s ∧ deref_eq (generator e) g = true.
Proof.
  induction s as [|a s IH]; [done|]. rewrite entryOf_cons.
  destruct (deref_eq (generator a) g) eqn:Ha.
  - intros [= <-]. split; [left | done].
  - intros [??]%IH. split; [by right | done].
Qed.

Lemma entryOf_app g s l :
  entryOf deref_eq g (s ++ l) =
  match entryOf deref_eq g s with
  | Some e => Some e
  | None => entryOf deref_eq g l
  end.
Proof.
  induction s as [|a s IH]; [reflexivity|]. simpl.
  rewrite !entryOf_cons. by destruct (deref_eq (generator a) g).
Qed.

Lemma contains_entryOf g s :
  result (contains deref_eq g s) = bool_decide (is_Some (entryOf deref_eq g s)).
Proof.
  rewrite contains_eq. unfold result. simpl. apply bool_decide_ext.
  rewrite <- entryOf_None, <- not_eq_None_Some. done.
Qed.

Lemma contains_false g s :
  result (contains deref_eq g s) = false ↔ entryOf deref_eq g s = None.
Proof.
  rewrite contains_entryOf, bool_decide_eq_false, <- not_eq_None_Some.
  destruct (entryOf deref_eq g s); naive_solver.
Qed.

Lemma contains_true g s :
  result (contains deref_eq g s) = true ↔ is_Some (entryOf deref_eq g s).
Proof. by rewrite contains_entryOf, bool_decide_eq_true. Qed.

Lemma getData_entryOf g s :
  result (getData deref_eq g s) = entryOf deref_eq g s ≫= data.
Proof. by rewrite getData_eq. Qed.

(** An update that keeps the generators keeps which entry is reached. *)
Lemma entryOf_alter g (h : Entry → Entry) i s :
  (∀ e, generator (h e) = generator e) →
  entryOf deref_eq g (alter h i s) = entryOf deref_eq g s
  ∨ ∃ e, s !! i = Some e ∧ entryOf deref_eq g s = Some e
         ∧ entryOf deref_eq g (alter h i s) = Some (h e).
Proof.
  intros Hh. revert i. induction s as [|a s IH]; intros [|i]; simpl; [by left..| |].
  - rewrite !entryOf_cons, Hh. destruct (deref_eq (generator a) g); [|by left].
    right. by exists a.
  - rewrite !entryOf_cons. destruct (deref_eq (generator a) g); [by left|]. apply IH.
Qed.

Lemma entryOf_alter_found g (h : Entry → Entry) i s :
  (∀ e, generator (h e) = generator e) →
  findEntry_scan deref_eq g s = Some i →
  entryOf deref_eq g (alter h i s) = h <$> entryOf deref_eq g s.
Proof.
  intros Hh. revert i. induction s as [|a s IH]; intros i; simpl; [done|].
  rewrite !entryOf_cons. destruct (deref_eq (generator a) g) eqn:Ha.
  - intros [= <-]. simpl. by rewrite entryOf_cons, Hh, Ha.
  - intros (j & Hj & ->)%fmap_Some. simpl. rewrite entryOf_cons, Ha. by apply IH.
Qed.

(** ** The loop of [releaseData] *)

Lemma releaseData_loop_unknown g r s :
  entryOf deref_eq g s = None → releaseData_loop deref_eq g r s = s.
Proof.
  induction s as [|a s IH]; [done|]. rewrite entryOf_cons. simpl.
  destruct (deref_eq (generator a) g); [done|]. intros Hs. by rewrite IH.
Qed.

(** The loop adds no generator to the vector. *)
Lemma releaseData_loop_entryOf_None g r g' s :
  entryOf deref_eq g' s = None →
  entryOf deref_eq g' (releaseData_loop deref_eq g r s) = None.
Proof.
  induction s as [|a s IH]; [done|]. rewrite entryOf_cons. simpl.
  destruct (deref_eq (generator a) g') eqn:Ha'; [done|]. intros Hs.
  destruct (deref_eq (generator a) g).
  - case_bool_decide; [done|]. rewrite entryOf_cons. simpl. rewrite Ha'. auto.
  - rewrite entryOf_cons, Ha'. auto.
Qed.

(** ** At most one entry for each generator value *)

Lemma entriesFor_nil g s :
  entriesFor deref_eq g s = [] ↔ entryOf deref_eq g s = None.
Proof.
  unfold entriesFor. induction s as [|a s IH]; [done|].
  rewrite entryOf_cons, filter_cons.
  destruct (deref_eq (generator a) g) eqn:Ha.
  - by rewrite decide_True.
  - rewrite decide_False by congruence. done.
Qed.

Lemma oneEntryPerValue_nil : oneEntryPerValue deref_eq (@nil Entry).
Proof. intros g. unfold entriesFor. rewrite filter_nil. simpl. lia. Qed.

Lemma oneEntryPerValue_cons a s :
  oneEntryPerValue deref_eq (a :: s) ↔
  oneEntryPerValue deref_eq s
  ∧ ∀ g, deref_eq (generator a) g = true → entryOf deref_eq g s = None.
Proof.
  unfold oneEntryPerValue, entriesFor. split.
  - intros HU. split.
    + intros g. specialize (HU g). rewrite filter_cons in HU.
      case_decide; simpl in HU; lia.
    + intros g Ha. specialize (HU g). rewrite filter_cons_True in HU by done.
      simpl in HU. apply entriesFor_nil. unfold entriesFor.
      apply nil_length_inv. lia.
  - intros [HU Ha] g. rewrite filter_cons. case_decide as Hg; [|done].
    apply Ha, entriesFor_nil in Hg. unfold entriesFor in Hg. by rewrite Hg.
Qed.

Lemma oneEntryPerValue_generators s s' :
  generator <$> s = generator <$> s' →
  oneEntryPerValue deref_eq s → oneEntryPerValue deref_eq s'.
Proof.
  intros Hg HU g. specialize (HU g).
  enough (length (entriesFor deref_eq g s') = length (entriesFor deref_eq g s)) by lia.
  clear HU. unfold entriesFor. revert s' Hg.
  induction s as [|a s IH]; intros [|a' s'] Hg; simplify_eq/=; [done|].
  rewrite !filter_cons. rewrite H. case_decide; simpl; by rewrite (IH s').
Qed.

Lemma oneEntryPerValue_lookup g s i j e1 e2 :
  oneEntryPerValue deref_eq s →
  s !! i = Some e1 → s !! j = Some e2 →
  deref_eq (generator e1) g = true → deref_eq (generator e2) g = true →
  i = j.
Proof.
  revert i j. induction s as [|a s IH]; intros i j HU Hi Hj H1 H2; [done|].
  apply oneEntryPerValue_cons in HU as [HU Ha].
  destruct i as [|i], j as [|j]; simplify_eq/=.
  - done.
  - apply Ha, entryOf_None_Forall in H1.
    rewrite Forall_lookup in H1. specialize (H1 _ _ Hj). congruence.
  - apply Ha, entryOf_None_Forall in H2.
    rewrite Forall_lookup in H2. specialize (H2 _ _ Hi). congruence.
  - f_equal. eauto.
Qed.

Lemma releaseData_loop_oneEntryPerValue g r s :
  oneEntryPerValue deref_eq s →
  oneEntryPerValue deref_eq (releaseData_loop deref_eq g r s).
Proof.
  induction s as [|a s IH]; [done|].
  intros [HU Ha]%oneEntryPerValue_cons. simpl.
  destruct (deref_eq (generator a) g).
  - case_bool_decide; [done|]. apply oneEntryPerValue_cons. split; [auto|].
    simpl. intros g' Hg'. by apply releaseData_loop_entryOf_None, Ha.
  - apply oneEntryPerValue_cons. split; [auto|].
    intros g' Hg'. by apply releaseData_loop_entryOf_None, Ha.
Qed.

(** ** Referencing objects *)

Lemma addReference_elem r e : r ∈ referencingObjects (addReference r e).
Proof.
  unfold addReference. case_bool_decide; [done|]. simpl.
  apply elem_of_app. right. by apply list_elem_of_singleton.
Qed.

Lemma addReference_nonempty r e : referencingObjects (addReference r e) ≠ [].
Proof.
  pose proof (addReference_elem r e) as Hr. intros Hnil. rewrite Hnil in Hr.
  by apply elem_of_nil in Hr.
Qed.

Lemma addReference_NoDup r e :
  NoDup (referencingObjects e) → NoDup (referencingObjects (addReference r e)).
Proof.
  intros Hnd. unfold addReference. case_bool_decide as Hr; [done|]. simpl.
  apply NoDup_app. split; [done|]. split; [|apply NoDup_singleton].
  intros x Hx ->%list_elem_of_singleton. done.
Qed.

Lemma addReference_idem r e : addReference r (addReference r e) = addReference r e.
Proof.
  unfold addReference at 1. by rewrite bool_decide_eq_true_2 by apply addReference_elem.
Qed.

Lemma removeAll_NoDup r (l : list ReferencedType) : NoDup l → NoDup (removeAll r l).
Proof. apply NoDup_filter. Qed.

(** ** The contents after each call *)

Lemma requestData_state g r s :
  state (requestData deref_eq g r s) =
  match findEntry_scan deref_eq g s with
  | Some i => alter (addReference r) i s
  | None => s ++ [mkEntry g [r] None]
  end.
Proof.
  destruct (findEntry_scan deref_eq g s) as [i|] eqn:Hf.
  - by rewrite (requestData_found _ _ _ _ Hf).
  - by rewrite (requestData_new _ _ _ Hf).
Qed.

Lemma assignData_state g d s :
  state (assignData deref_eq g d s) =
  match findEntry_scan deref_eq g s with
  | Some i => alter (setData d) i s
  | None => s
  end.
Proof.
  destruct (findEntry_scan deref_eq g s) as [i|] eqn:Hf.
  - by rewrite (assignData_found _ _ _ _ Hf).
  - by rewrite (assignData_unknown _ _ _ Hf).
Qed.

Lemma releaseData_loop_allReferenced g r s :
  allReferenced s → allReferenced (releaseData_loop deref_eq g r s).
Proof.
  unfold allReferenced. induction 1 as [|a s Ha Hs IH]; simpl; [done|].
  destruct (deref_eq (generator a) g).
  - case_bool_decide; [done|]. by constructor.
  - by constructor.
Qed.

Lemma releaseData_loop_referencesNoDup g r s :
  referencesNoDup s → referencesNoDup (releaseData_loop deref_eq g r s).
Proof.
  unfold referencesNoDup. induction 1 as [|a s Ha Hs IH]; simpl; [done|].
  destruct (deref_eq (generator a) g).
  - case_bool_decide; [done|]. constructor; [|done]. by apply removeAll_NoDup.
  - by constructor.
Qed.

Lemma releaseData_wellFormed g r s :
  wellFormed deref_eq s → wellFormed deref_eq (state (releaseData deref_eq g r s)).
Proof.
  intros (HU & HR & HN). rewrite releaseData_eq. unfold state. simpl.
  split; [|split].
  - by apply releaseData_loop_oneEntryPerValue.
  - by apply releaseData_loop_allReferenced.
  - by apply releaseData_loop_referencesNoDup.
Qed.

Lemma assignData_wellFormed g d s :
  wellFormed deref_eq s → wellFormed deref_eq (state (assignData deref_eq g d s)).
Proof.
  intros (HU & HR & HN). rewrite assignData_state.
  destruct (findEntry_scan deref_eq g s) as [i|]; [|done].
  split; [|split].
  - eapply oneEntryPerValue_generators; [|done]. symmetry. by apply fmap_alter_same.
  - apply Forall_alter; [done|]. by intros e _ He.
  - apply Forall_alter; [done|]. by intros e _ He.
Qed.

Lemma findEntry_scan_generators g s s' :
  generator <$> s = generator <$> s' →
  findEntry_scan deref_eq g s = findEntry_scan deref_eq g s'.
Proof.
  revert s'. induction s as [|a s IH]; intros [|a' s'] Hg; simplify_eq/=; [done|].
  rewrite H. by rewrite (IH s').
Qed.

Lemma findEntry_scan_app_None g s l :
  findEntry_scan deref_eq g s = None →
  findEntry_scan deref_eq g (s ++ l) = (λ i, length s + i) <$> findEntry_scan deref_eq g l.
Proof.
  induction s as [|a s IH]; simpl.
  - intros _. by destruct (findEntry_scan deref_eq g l).
  - destruct (deref_eq (generator a) g); [done|].
    intros Hs%fmap_None. rewrite (IH Hs).
    by destruct (findEntry_scan deref_eq g l).
Qed.

(** The entry for [g] after [releaseData(g, r)], when it was the only one. *)
Lemma releaseData_entryOf g r s e :
  oneEntryPerValue deref_eq s →
  entryOf deref_eq g s = Some e →
  entryOf deref_eq g (releaseData_loop deref_eq g r s) =
  if bool_decide (removeAll r (referencingObjects e) = []) then None
  else Some (mkEntry (generator e) (removeAll r (referencingObjects e)) (data e)).
Proof.
  induction s as [|a s IH]; [done|].
  intros [HU Ha]%oneEntryPerValue_cons. rewrite entryOf_cons. simpl.
  destruct (deref_eq (generator a) g) eqn:Hag.
  - intros [= <-]. case_bool_decide; [by apply Ha|].
    by rewrite entryOf_cons; simpl; rewrite Hag.
  - intros He. rewrite entryOf_cons, Hag. by apply IH.
Qed.

(** ** The generators listed by [pendingGenerators] *)

Lemma pendingGenerators_loop_elem s (ret : list GeneratorPtr) g :
  g ∈ pendingGenerators_loop s ret ↔
  g ∈ ret ∨ ∃ e, e ∈ s ∧ generator e = g ∧ data e = None.
Proof.
  revert ret. induction s as [|a s IH]; intros ret; simpl.
  - split; [by left|]. intros [?|(e & []%elem_of_nil & _)]. done.
  - destruct (bool_decide (data a = None) && negb (bool_decide (generator a ∈ ret)))
      eqn:Hc; rewrite IH.
    + apply andb_true_iff in Hc as [Hd%bool_decide_eq_true _].
      rewrite elem_of_app, list_elem_of_singleton. split.
      * intros [[?| ->]|(e & He & ?)]; [by left| |].
        -- right. exists a. split; [left|done].
        -- right. exists e. split; [by right|done].
      * intros [?|(e & [->|He]%elem_of_cons & Hg & Hn)]; [by left; left| |].
        -- by left; right.
        -- right. by exists e.
    + split.
      * intros [?|(e & He & ?)]; [by left|]. right. exists e. split; [by right|done].
      * intros [?|(e & [->|He]%elem_of_cons & Hg & Hn)]; [by left| |].
        -- left. apply andb_false_iff in Hc as [Hc%bool_decide_eq_false|Hc]; [done|].
           apply negb_false_iff, bool_decide_eq_true in Hc. by rewrite <- Hg.
        -- right. by exists e.
Qed.

Lemma pendingGenerators_loop_NoDup s (ret : list GeneratorPtr) :
  NoDup ret → NoDup (pendingGenerators_loop s ret).
Proof.
  revert ret. induction s as [|a s IH]; intros ret Hnd; simpl; [done|].
  destruct (bool_decide (data a = None) && negb (bool_decide (generator a ∈ ret)))
    eqn:Hc; [|by apply IH].
  apply andb_true_iff in Hc as [_ Hc%negb_true_iff%bool_decide_eq_false].
  apply IH, NoDup_app. split; [done|]. split; [|apply NoDup_singleton].
  by intros x Hx ->%list_elem_of_singleton.
Qed.

Lemma pendingGenerators_elem g s :
  g ∈ result (pendingGenerators s) ↔ ∃ e, e ∈ s ∧ generator e = g ∧ data e = None.
Proof.
  rewrite pendingGenerators_eq. unfold result. simpl.
  rewrite pendingGenerators_loop_elem. split; [|by right].
  by intros [[]%elem_of_nil|?].
Qed.

(** An entry that an update keeps pending is still in the vector. *)
Lemma elem_of_alter_kept (P : Entry → Prop) (h : Entry → Entry) i s :
  (∀ e, P e → P (h e)) →
  (∃ e, e ∈ s ∧ P e) → ∃ e, e ∈ alter h i s ∧ P e.
Proof.
  intros Hh (e & (k & Hk)%list_elem_of_lookup & HP).
  destruct (decide (i = k)) as [->|Hik].
  - exists (h e). split; [|auto]. apply list_elem_of_lookup. exists k.
    by rewrite list_lookup_alter_eq, Hk.
  - exists e. split; [|done]. apply list_elem_of_lookup. exists k.
    by rewrite list_lookup_alter_ne.
Qed.

Lemma releaseData_loop_other g r s e :
  e ∈ s → deref_eq (generator e) g = false → e ∈ releaseData_loop deref_eq g r s.
Proof.
  intros He Hg. induction s as [|a s IH]; [done|]. simpl.
  apply elem_of_cons in He as [<-|He].
  - rewrite Hg. left.
  - destruct (deref_eq (generator a) g).
    + case_bool_decide; [done|]. right. auto.
    + right. auto.
Qed.

(** Calls that do not concern the handle [g] keep it listed. *)
Lemma pending_kept g (c : Call GeneratorPtr Data ReferencedType) s :
  concerns deref_eq g c = false →
  g ∈ result (pendingGenerators s) →
  g ∈ result (pendingGenerators (exec deref_eq c s).1).
Proof.
  rewrite !pendingGenerators_elem. intros Hc Hp.
  destruct c as [g' r'|g' r'|g'| |g' d'|g']; simpl in *;
    rewrite ?getData_eq, ?requestData_state, ?assignData_state; try done.
  - destruct (findEntry_scan deref_eq g' s) as [i|].
    + apply (elem_of_alter_kept (λ e, generator e = g ∧ data e = None)); [|done].
      intros e. by rewrite generator_addReference, data_addReference.
    + destruct Hp as (e & He & ?). exists e. split; [|done].
      apply elem_of_app. by left.
  - destruct Hp as (e & He & <- & Hd). exists e. split; [|done].
    by apply releaseData_loop_other.
  - destruct (findEntry_scan deref_eq g' s) as [i|] eqn:Hf; [|done].
    destruct Hp as (e & (k & Hk)%list_elem_of_lookup & <- & Hd).
    apply findEntry_scan_Some in Hf as (ei & Hi & Hm & _).
    exists e. split; [|done]. apply list_elem_of_lookup. exists k.
    rewrite list_lookup_alter_ne; [done|]. intros ->. congruence.
Qed.

(** A null handle assigned to any generator keeps [g] listed. *)
Lemma pending_kept_null g g' s :
  g ∈ result (pendingGenerators s) →
  g ∈ result (pendingGenerators (state (assignData deref_eq g' None s))).
Proof.
  rewrite !pendingGenerators_elem, assignData_state. intros Hp.
  destruct (findEntry_scan deref_eq g' s) as [i|]; [|done].
  apply (elem_of_alter_kept (λ e, generator e = g ∧ data e = None)); [|done].
  by intros e [??].
Qed.

(** ** Entries that hold data *)

Lemma ready_true g s :
  ready deref_eq g s = true ↔
  ∃ e x, entryOf deref_eq g s = Some e ∧ data e = Some x.
Proof.
  unfold ready. rewrite bool_decide_eq_true, getData_entryOf. split.
  - intros [x Hx]. destruct (entryOf deref_eq g s) as [e|]; [|done]. by exists e, x.
  - intros (e & x & -> & Hx). by exists x.
Qed.

Lemma releaseData_loop_keeps_data g g' r s e e' :
  oneEntryPerValue deref_eq s →
  entryOf deref_eq g s = Some e →
  entryOf deref_eq g (releaseData_loop deref_eq g' r s) = Some e' →
  data e' = data e.
Proof.
  induction s as [|a s IH]; [done|].
  intros [HU Ha]%oneEntryPerValue_cons. rewrite entryOf_cons. simpl.
  destruct (deref_eq (generator a) g') eqn:Hag'.
  - case_bool_decide.
    + destruct (deref_eq (generator a) g) eqn:Hag.
      * intros _ He'. rewrite (Ha _ Hag) in He'. done.
      * congruence.
    + rewrite entryOf_cons. simpl.
      destruct (deref_eq (generator a) g); [|by auto].
      by intros [= <-] [= <-].
  - rewrite entryOf_cons. destruct (deref_eq (generator a) g); [|by auto].
    by intros [= <-] [= <-].
Qed.

(** One call that assigns no null handle keeps a ready entry ready, as
    long as the entry is still there after the call. *)
Lemma ready_step g (c : Call GeneratorPtr Data ReferencedType) s :
  oneEntryPerValue deref_eq s →
  assignsNull c = false →
  ready deref_eq g s = true →
  result (contains deref_eq g (exec deref_eq c s).1) = true →
  ready deref_eq g (exec deref_eq c s).1 = true.
Proof.
  intros HU Hc (e & x & He & Hx)%ready_true Hin. apply ready_true.
  destruct c as [g' r'|g' r'|g'| |g' d'|g']; simpl in *;
    rewrite ?getData_eq, ?requestData_state, ?assignData_state in *;
    try (by exists e, x).
  - destruct (findEntry_scan deref_eq g' s) as [i|].
    + destruct (entryOf_alter g _ i s (generator_addReference r'))
        as [->|(e0 & _ & He0 & ->)]; [by exists e, x|].
      exists (addReference r' e0), x. split; [done|].
      rewrite data_addReference. congruence.
    + exists e, x. by rewrite entryOf_app, He.
  - apply contains_true in Hin as [e' He']. unfold state in He'. simpl in He'.
    exists e', x. split; [done|].
    by rewrite (releaseData_loop_keeps_data _ _ _ _ _ _ HU He He').
  - destruct d' as [x'|]; [|done].
    destruct (findEntry_scan deref_eq g' s) as [i|]; [|by exists e, x].
    destruct (entryOf_alter g (setData (Some x')) i s) as [->|(e0 & _ & He0 & ->)];
      [done|by exists e, x|].
    by exists (setData (Some x') e0), x'.
Qed.

Section ValueEquality.

(** [operator==] on generators is an equivalence. *)
Hypothesis deref_eq_equiv : Equivalence (λ a b, deref_eq a b = true).

Lemma deref_eq_refl g : deref_eq g g = true.
Proof. apply (@reflexivity _ _ (@Equivalence_Reflexive _ _ deref_eq_equiv)). Qed.

Lemma deref_eq_sym g g' : deref_eq g g' = true → deref_eq g' g = true.
Proof. apply (@symmetry _ _ (@Equivalence_Symmetric _ _ deref_eq_equiv)). Qed.

Lemma deref_eq_trans g g' g'' :
  deref_eq g g' = true → deref_eq g' g'' = true → deref_eq g g'' = true.
Proof. apply (@transitivity _ _ (@Equivalence_Transitive _ _ deref_eq_equiv)). Qed.

Lemma createEntry_oneEntryPerValue g l d s :
  entryOf deref_eq g s = None →
  oneEntryPerValue deref_eq s → oneEntryPerValue deref_eq (s ++ [mkEntry g l d]).
Proof.
  intros Hg. induction s as [|a s IH].
  - intros _. apply oneEntryPerValue_cons. split; [apply oneEntryPerValue_nil|done].
  - rewrite entryOf_cons in Hg.
    destruct (deref_eq (generator a) g) eqn:Ha; [done|].
    intros [HU Hs]%oneEntryPerValue_cons. simpl.
    apply oneEntryPerValue_cons. split; [auto|].
    intros g' Hg'. rewrite entryOf_app, (Hs _ Hg'), entryOf_cons. simpl.
    destruct (deref_eq g g') eqn:Hgg'; [|done].
    rewrite (deref_eq_trans _ _ _ Hg' (deref_eq_sym _ _ Hgg')) in Ha. done.
Qed.

Lemma requestData_wellFormed g r s :
  wellFormed deref_eq s → wellFormed deref_eq (state (requestData deref_eq g r s)).
Proof.
  intros (HU & HR & HN). rewrite requestData_state.
  destruct (findEntry_scan deref_eq g s) as [i|] eqn:Hf.
  - split; [|split].
    + eapply oneEntryPerValue_generators; [|done]. symmetry.
      apply fmap_alter_same, generator_addReference.
    + apply Forall_alter; [done|]. intros e _ _. apply addReference_nonempty.
    + apply Forall_alter; [done|]. intros e _ He. by apply addReference_NoDup.
  - split; [|split].
    + apply createEntry_oneEntryPerValue; [|done]. by apply entryOf_None.
    + apply Forall_app. split; [done|]. by repeat constructor.
    + apply Forall_app. split; [done|]. constructor; [apply NoDup_singleton|constructor].
Qed.

Lemma exec_wellFormed (c : Call GeneratorPtr Data ReferencedType) s :
  wellFormed deref_eq s → wellFormed deref_eq (exec deref_eq c s).1.
Proof.
  intros Hwf. destruct c as [g r|g r|g| |g d|g]; simpl.
  - by apply requestData_wellFormed.
  - by apply releaseData_wellFormed.
  - by rewrite getData_eq.
  - done.
  - by apply assignData_wellFormed.
  - done.
Qed.

Lemma run_wellFormed (cs : list (Call GeneratorPtr Data ReferencedType)) s :
  wellFormed deref_eq s → wellFormed deref_eq (run deref_eq cs s).
Proof.
  revert s. induction cs as [|c cs IH]; intros s Hwf; [done|].
  simpl. apply IH. by apply exec_wellFormed.
Qed.

Lemma GeneratorDataManager_wellFormed :
  wellFormed deref_eq (@GeneratorDataManager GeneratorPtr Data ReferencedType).
Proof. split; [apply oneEntryPerValue_nil|]. split; constructor. Qed.

Lemma run_app (cs1 cs2 : list (Call GeneratorPtr Data ReferencedType)) s :
  run deref_eq (cs1 ++ cs2) s = run deref_eq cs2 (run deref_eq cs1 s).
Proof. apply foldl_app. Qed.

Lemma deref_eq_compat a g1 g2 :
  deref_eq g1 g2 = true → deref_eq a g1 = deref_eq a g2.
Proof.
  intros H12. destruct (deref_eq a g2) eqn:H2.
  - eapply deref_eq_trans; [done|]. by apply deref_eq_sym.
  - destruct (deref_eq a g1) eqn:H1; [|done].
    by rewrite (deref_eq_trans _ _ _ H1 H12) in H2.
Qed.

Lemma entryOf_equal_values g1 g2 s :
  deref_eq g1 g2 = true → entryOf deref_eq g1 s = entryOf deref_eq g2 s.
Proof.
  intros H12. induction s as [|a s IH]; [done|].
  by rewrite !entryOf_cons, (deref_eq_compat _ _ _ H12), IH.
Qed.

Lemma entriesFor_equal_values g1 g2 s :
  deref_eq g1 g2 = true → entriesFor deref_eq g1 s = entriesFor deref_eq g2 s.
Proof.
  intros H12. apply list_filter_iff. intros e.
  by rewrite (deref_eq_compat _ _ _ H12).
Qed.

Lemma requestData_entryOf g r s :
  entryOf deref_eq g (state (requestData deref_eq g r s)) =
  Some (match entryOf deref_eq g s with
        | Some e => addReference r e
        | None => mkEntry g [r] None
        end).
Proof.
  rewrite requestData_state.
  destruct (findEntry_scan deref_eq g s) as [i|] eqn:Hf.
  - rewrite (entryOf_alter_found _ _ _ _ (generator_addReference r) Hf).
    destruct (entryOf deref_eq g s) eqn:He; [done|].
    apply entryOf_None in He. congruence.
  - apply entryOf_None in Hf. rewrite entryOf_app, Hf, entryOf_cons. simpl.
    by rewrite deref_eq_refl.
Qed.

(** C2: in every state that calls on a new manager can reach there is at
    most one entry for each generator value; and for handles [g1], [g2] to
    equal generators, [requestData(g1, r1)] followed by
    [requestData(g2, r2)] leaves exactly one entry for that value, the
    second call returns [false] and creates nothing, and [contains] is
    [true] for both handles. *)
Theorem one_entry_per_generator_value
    (cs : list (Call GeneratorPtr Data ReferencedType)) g1 r1 g2 r2 :
  deref_eq g1 g2 = true →
  oneEntryPerValue deref_eq (run deref_eq cs GeneratorDataManager)
  ∧ result (requestData deref_eq g2 r2
      (run deref_eq (cs ++ [RequestData g1 r1]) GeneratorDataManager)) = false
  ∧ length (run deref_eq (cs ++ [RequestData g1 r1; RequestData g2 r2])
              GeneratorDataManager)
    = length (run deref_eq (cs ++ [RequestData g1 r1]) GeneratorDataManager)
  ∧ length (entriesFor deref_eq g1
      (run deref_eq (cs ++ [RequestData g1 r1; RequestData g2 r2])
         GeneratorDataManager)) = 1
  ∧ entriesFor deref_eq g2
      (run deref_eq (cs ++ [RequestData g1 r1; RequestData g2 r2])
         GeneratorDataManager)
    = entriesFor deref_eq g1
      (run deref_eq (cs ++ [RequestData g1 r1; RequestData g2 r2])
         GeneratorDataManager)
  ∧ result (contains deref_eq g1
      (run deref_eq (cs ++ [RequestData g1 r1; RequestData g2 r2])
         GeneratorDataManager)) = true
  ∧ result (contains deref_eq g2
      (run deref_eq (cs ++ [RequestData g1 r1; RequestData g2 r2])
         GeneratorDataManager)) = true.
Proof.
  intros H12. rewrite !run_app. simpl.
  pose proof (run_wellFormed cs _ GeneratorDataManager_wellFormed) as Hwf0.
  set (s0 := run deref_eq cs GeneratorDataManager) in *.
  pose proof (requestData_wellFormed g1 r1 _ Hwf0) as Hwf1.
  pose proof (requestData_entryOf g1 r1 s0) as He1.
  set (s1 := state (requestData deref_eq g1 r1 s0)) in *.
  pose proof (requestData_wellFormed g2 r2 _ Hwf1) as Hwf2.
  pose proof (requestData_entryOf g2 r2 s1) as He2.
  rewrite (entryOf_equal_values _ _ _ H12) in He1.
  assert (∃ i, findEntry_scan deref_eq g2 s1 = Some i) as [i Hi].
  { destruct (findEntry_scan deref_eq g2 s1) eqn:Hf; [by eexists|].
    apply entryOf_None in Hf. congruence. }
  split; [apply Hwf0|]. split; [by rewrite (requestData_found _ _ _ _ Hi)|].
  split; [by rewrite requestData_state, Hi, length_alter|].
  set (s2 := state (requestData deref_eq g2 r2 s1)) in *.
  assert (entriesFor deref_eq g2 s2 ≠ []) as Hne.
  { rewrite entriesFor_nil. congruence. }
  rewrite (entriesFor_equal_values _ _ s2 H12), !contains_true,
    (entryOf_equal_values _ _ s2 H12), He2.
  split; [|by eauto].
  destruct Hwf2 as [HU _]. specialize (HU g2).
  destruct (entriesFor deref_eq g2 s2); simpl in *; [done|lia].
Qed.

(** C3: in every state that calls on a new manager can reach, each entry
    has at least one referencing object.  [requestData(g, r)] leaves the
    entry for [g] with [r] among its referencing objects.
    [releaseData(g, r)] removes the entry for [g], data included, when
    removing [r] leaves it no referencing object, and otherwise keeps it,
    with the other referencing objects and its data, so that [contains(g)]
    stays [true]. *)
Theorem entry_exists_iff_referenced
    (cs : list (Call GeneratorPtr Data ReferencedType)) g r :
  allReferenced (run deref_eq cs GeneratorDataManager)
  ∧ (∃ e, entryOf deref_eq g
            (state (requestData deref_eq g r (run deref_eq cs GeneratorDataManager)))
          = Some e
          ∧ r ∈ referencingObjects e)
  ∧ (∀ e, entryOf deref_eq g (run deref_eq cs GeneratorDataManager) = Some e →
       if bool_decide (removeAll r (referencingObjects e) = [])
       then result (contains deref_eq g
              (state (releaseData deref_eq g r (run deref_eq cs GeneratorDataManager))))
            = false
            ∧ result (getData deref_eq g
              (state (releaseData deref_eq g r (run deref_eq cs GeneratorDataManager))))
            = None
       else result (contains deref_eq g
              (state (releaseData deref_eq g r (run deref_eq cs GeneratorDataManager))))
            = true
            ∧ entryOf deref_eq g
              (state (releaseData deref_eq g r (run deref_eq cs GeneratorDataManager)))
            = Some (mkEntry (generator e) (removeAll r (referencingObjects e)) (data e))).
Proof.
  pose proof (run_wellFormed cs _ GeneratorDataManager_wellFormed) as (HU & HR & _).
  set (s := run deref_eq cs GeneratorDataManager) in *.
  split; [done|]. split.
  - rewrite requestData_entryOf. eexists. split; [done|].
    destruct (entryOf deref_eq g s); [apply addReference_elem|]. simpl.
    by apply list_elem_of_singleton.
  - intros e He. rewrite releaseData_eq, contains_entryOf, getData_entryOf.
    unfold state. simpl. rewrite (releaseData_entryOf _ r _ _ HU He).
    by case_bool_decide.
Qed.

Lemma different_values g g' e :
  deref_eq g g' = false → deref_eq (generator e) g = true →
  deref_eq (generator e) g' = false.
Proof.
  intros Hgg' Hg. destruct (deref_eq (generator e) g') eqn:Hg'; [|done].
  by rewrite (deref_eq_trans _ _ _ (deref_eq_sym _ _ Hg) Hg') in Hgg'.
Qed.

Lemma alter_found_frame g g' (h : Entry → Entry) i s :
  (∀ e, generator (h e) = generator e) →
  deref_eq g g' = false →
  findEntry_scan deref_eq g s = Some i →
  entryOf deref_eq g' (alter h i s) = entryOf deref_eq g' s.
Proof.
  intros Hh Hgg' (e & Hi & Hm & _)%findEntry_scan_Some.
  destruct (entryOf_alter g' h i s Hh) as [->|(e0 & Hi0 & He0 & _)]; [done|].
  simplify_eq. apply entryOf_Some in He0 as [_ Hm'].
  by rewrite (different_values _ _ _ Hgg' Hm) in Hm'.
Qed.

Lemma deref_eq_false_sym g g' : deref_eq g g' = false → deref_eq g' g = false.
Proof.
  intros H. destruct (deref_eq g' g) eqn:H'; [|done].
  by rewrite (deref_eq_sym _ _ H') in H.
Qed.

(** ** Entries that stay pending, entries that stay ready *)

(** In a cache with one entry for each value, a listed handle is the one
    that the entry reached for it stores. *)
Lemma pending_entryOf g s :
  oneEntryPerValue deref_eq s →
  g ∈ result (pendingGenerators s) →
  ∃ e, entryOf deref_eq g s = Some e ∧ generator e = g ∧ data e = None.
Proof.
  intros HU (e & (k & Hk)%list_elem_of_lookup & <- & Hd)%pendingGenerators_elem.
  exists e. split; [|done]. unfold entryOf.
  destruct (findEntry_scan deref_eq (generator e) s) as [i|] eqn:Hf.
  - pose proof Hf as (ei & Hi & Hm & _)%findEntry_scan_Some.
    assert (i = k) as ->; [|done].
    eapply oneEntryPerValue_lookup; [done..|]. apply deref_eq_refl.
  - apply findEntry_scan_None in Hf. rewrite Forall_lookup in Hf.
    specialize (Hf _ _ Hk). by rewrite deref_eq_refl in Hf.
Qed.

(** One call that gives the value of [g] no data keeps [g] listed, as long
    as its entry is still there after the call. *)
Lemma pending_step g (c : Call GeneratorPtr Data ReferencedType) s :
  oneEntryPerValue deref_eq s →
  givesDataTo deref_eq g c = false →
  g ∈ result (pendingGenerators s) →
  result (contains deref_eq g (exec deref_eq c s).1) = true →
  g ∈ result (pendingGenerators (exec deref_eq c s).1).
Proof.
  intros HU Hc Hp Hin.
  destruct (concerns deref_eq g c) eqn:Hcc; [|by apply pending_kept].
  destruct c as [g' r'|g' r'|g'| |g' [x|]|g']; simpl in *; try congruence.
  - destruct (pending_entryOf _ _ HU Hp) as (e & He & Hg & Hd).
    rewrite (entryOf_equal_values _ _ _ Hcc) in He.
    apply contains_true in Hin as [e' He'].
    rewrite (entryOf_equal_values _ _ _ Hcc), releaseData_eq in He'.
    unfold state in He'. simpl in He'.
    pose proof (entryOf_Some _ _ _ He') as [Hin' _].
    rewrite (releaseData_entryOf _ r' _ _ HU He) in He'.
    case_bool_decide; [done|]. injection He' as <-.
    rewrite releaseData_eq. unfold state. simpl.
    apply pendingGenerators_elem. eexists. by split; [exact Hin'|].
  - by apply pending_kept_null.
Qed.

Lemma pending_run g (cs : list (Call GeneratorPtr Data ReferencedType)) s :
  wellFormed deref_eq s →
  Forall (λ c, givesDataTo deref_eq g c = false) cs →
  g ∈ result (pendingGenerators s) →
  (∀ k, k ≤ length cs → result (contains deref_eq g (run deref_eq (take k cs) s)) = true) →
  g ∈ result (pendingGenerators (run deref_eq cs s)).
Proof.
  revert s. induction cs as [|c cs IH]; intros s Hwf Hcs Hp Hin; [done|].
  inversion Hcs as [|?? Hc Hcs']; subst. simpl. apply IH.
  - by apply exec_wellFormed.
  - done.
  - apply pending_step; [apply Hwf|done..|]. apply (Hin 1). simpl. lia.
  - intros k Hk. apply (Hin (S k)). simpl. lia.
Qed.

Lemma not_pending_before_creation g g0 s :
  entryOf deref_eq g s = None → deref_eq g0 g = true →
  g0 ∉ result (pendingGenerators s).
Proof.
  intros Hn H0 (e & He & Hg & _)%pendingGenerators_elem.
  apply entryOf_None_Forall in Hn. rewrite Forall_forall in Hn.
  specialize (Hn _ He). rewrite Hg in Hn. congruence.
Qed.

Lemma assignData_not_pending g g0 x s :
  oneEntryPerValue deref_eq s → deref_eq g0 g = true →
  g0 ∉ result (pendingGenerators (state (assignData deref_eq g (Some x) s))).
Proof.
  intros HU H0. rewrite pendingGenerators_elem, assignData_state.
  destruct (findEntry_scan deref_eq g s) as [i|] eqn:Hf.
  - intros (e & (k & Hk)%list_elem_of_lookup & Hg & Hd).
    apply findEntry_scan_Some in Hf as (ei & Hi & Hm & _).
    destruct (decide (i = k)) as [->|Hik].
    + rewrite list_lookup_alter_eq, Hi in Hk. by simplify_eq/=.
    + rewrite list_lookup_alter_ne in Hk by done.
      apply Hik. eapply oneEntryPerValue_lookup; [done..|]. by rewrite Hg.
  - intros (e & He & Hg & Hd). apply findEntry_scan_None in Hf.
    rewrite Forall_forall in Hf. specialize (Hf _ He). rewrite Hg in Hf. congruence.
Qed.

(** One call that hands no null data handle to the value of [g] keeps a
    ready entry ready, as long as the entry is still there after the
    call. *)
Lemma ready_step_own g (c : Call GeneratorPtr Data ReferencedType) s :
  oneEntryPerValue deref_eq s →
  clearsDataOf deref_eq g c = false →
  ready deref_eq g s = true →
  result (contains deref_eq g (exec deref_eq c s).1) = true →
  ready deref_eq g (exec deref_eq c s).1 = true.
Proof.
  intros HU Hc Hr Hin. destruct (assignsNull c) eqn:Hn; [|by apply ready_step].
  destruct c as [g' r'|g' r'|g'| |g' [x|]|g']; simpl in *; try done.
  unfold ready in *. rewrite getData_entryOf in *. rewrite assignData_state.
  destruct (findEntry_scan deref_eq g' s) as [i|] eqn:Hf; [|done].
  by rewrite (alter_found_frame g' g (setData None) i s (λ _, eq_refl)
                (deref_eq_false_sym _ _ Hc) Hf).
Qed.

Lemma ready_run g (cs : list (Call GeneratorPtr Data ReferencedType)) s :
  wellFormed deref_eq s →
  Forall (λ c, clearsDataOf deref_eq g c = false) cs →
  ready deref_eq g s = true →
  (∀ k, k ≤ length cs → result (contains deref_eq g (run deref_eq (take k cs) s)) = true) →
  ready deref_eq g (run deref_eq cs s) = true.
Proof.
  revert s. induction cs as [|c cs IH]; intros s Hwf Hcs Hr Hin; [done|].
  inversion Hcs as [|?? Hc Hcs']; subst. simpl. apply IH.
  - by apply exec_wellFormed.
  - done.
  - apply ready_step_own; [apply Hwf|done..|]. apply (Hin 1). simpl. lia.
  - intros k Hk. apply (Hin (S k)). simpl. lia.
Qed.

(** C4 (as amended): in every state that calls on a new manager can reach,
    [pendingGenerators()] returns, without repetition, exactly the
    generators of the entries whose data is null.  Before the
    [requestData] that creates the entry of [g], no generator of the value
    of [g] is listed.  After it [g] is listed, and it stays listed for as
    long as its entry exists, through every call except an [assignData]
    that hands a non-null data handle to a generator of its value:
    releases that leave the entry a referencing object and [assignData]
    with the null handle included.  After [assignData(g, data)] with a
    non-null [data] no generator of the value of [g] is listed. *)
Theorem pendingGenerators_lists_pending
    (cs cs' : list (Call GeneratorPtr Data ReferencedType)) g r x :
  NoDup (result (pendingGenerators (run deref_eq cs GeneratorDataManager)))
  ∧ (∀ g', g' ∈ result (pendingGenerators (run deref_eq cs GeneratorDataManager)) ↔
       ∃ e, e ∈ run deref_eq cs GeneratorDataManager
            ∧ generator e = g' ∧ data e = None)
  ∧ (result (contains deref_eq g (run deref_eq cs GeneratorDataManager)) = false →
       (∀ g0, deref_eq g0 g = true →
          g0 ∉ result (pendingGenerators (run deref_eq cs GeneratorDataManager)))
       ∧ g ∈ result (pendingGenerators
                (run deref_eq (cs ++ [RequestData g r]) GeneratorDataManager))
       ∧ (Forall (λ c, givesDataTo deref_eq g c = false) cs' →
          (∀ k, k ≤ length cs' →
             result (contains deref_eq g
               (run deref_eq (cs ++ RequestData g r :: take k cs')
                  GeneratorDataManager)) = true) →
          g ∈ result (pendingGenerators
                (run deref_eq (cs ++ RequestData g r :: cs') GeneratorDataManager))))
  ∧ (∀ g0, deref_eq g0 g = true →
       g0 ∉ result (pendingGenerators
                (run deref_eq (cs ++ [AssignData g (Some x)]) GeneratorDataManager)))
  ∧ (g ∈ result (pendingGenerators (run deref_eq cs GeneratorDataManager)) →
     g ∈ result (pendingGenerators
                (run deref_eq (cs ++ [AssignData g None]) GeneratorDataManager))).
Proof.
  pose proof (run_wellFormed cs _ GeneratorDataManager_wellFormed) as Hwf.
  pose proof Hwf as (HU & _).
  split; [|split; [|split; [|split]]].
  - rewrite pendingGenerators_eq. apply pendingGenerators_loop_NoDup, NoDup_nil_2.
  - intros g'. apply pendingGenerators_elem.
  - intros Hn%contains_false.
    assert (g ∈ result (pendingGenerators
              (run deref_eq (cs ++ [RequestData g r]) GeneratorDataManager))) as Hp.
    { rewrite run_app. simpl. apply entryOf_None in Hn.
      rewrite pendingGenerators_elem, requestData_state, Hn.
      exists (mkEntry g [r] None). split; [|done].
      apply elem_of_app. right. by apply list_elem_of_singleton. }
    split; [|split; [done|]].
    + intros g0 H0. by apply not_pending_before_creation with g.
    + intros Hcs Hin.
      change (cs ++ RequestData g r :: cs') with (cs ++ [RequestData g r] ++ cs').
      rewrite app_assoc, run_app. apply pending_run; [|done..|].
      * apply run_wellFormed, GeneratorDataManager_wellFormed.
      * intros k Hk. rewrite <- run_app, <- app_assoc. by apply Hin.
  - intros g0 H0. rewrite run_app. simpl. by apply assignData_not_pending.
  - rewrite run_app. simpl. apply pending_kept_null.
Qed.

(** C5 (as amended): in every state that calls on a new manager can reach,
    an entry that holds data still holds data after any further calls,
    none of which hands a null data handle to [assignData] for a generator
    of its value, as long as the entry is there after each of them.
    [assignData] with the null handle for its generator then returns the
    entry to null data without destroying it: the entry is still there,
    with the same handle and the same referencing objects. *)
Theorem ready_entry_stays_ready
    (cs cs' : list (Call GeneratorPtr Data ReferencedType)) g :
  Forall (λ c, clearsDataOf deref_eq g c = false) cs' →
  ready deref_eq g (run deref_eq cs GeneratorDataManager) = true →
  (∀ k, k ≤ length cs' →
     result (contains deref_eq g
       (run deref_eq (cs ++ take k cs') GeneratorDataManager)) = true) →
  ready deref_eq g (run deref_eq (cs ++ cs') GeneratorDataManager) = true
  ∧ ready deref_eq g
      (run deref_eq ((cs ++ cs') ++ [AssignData g None]) GeneratorDataManager) = false
  ∧ result (contains deref_eq g
      (run deref_eq ((cs ++ cs') ++ [AssignData g None]) GeneratorDataManager)) = true
  ∧ entryOf deref_eq g
      (run deref_eq ((cs ++ cs') ++ [AssignData g None]) GeneratorDataManager)
    = setData None <$> entryOf deref_eq g
                         (run deref_eq (cs ++ cs') GeneratorDataManager).
Proof.
  intros Hcs Hr Hin.
  assert (ready deref_eq g (run deref_eq (cs ++ cs') GeneratorDataManager) = true)
    as Hr'.
  { rewrite run_app. apply ready_run; [|done..|].
    - apply run_wellFormed, GeneratorDataManager_wellFormed.
    - intros k Hk. rewrite <- run_app. by apply Hin. }
  split; [done|]. rewrite (run_app (cs ++ cs')). simpl.
  set (s := run deref_eq (cs ++ cs') GeneratorDataManager) in *. clearbody s.
  apply ready_true in Hr' as (e & x & He & Hx).
  assert (entryOf deref_eq g (state (assignData deref_eq g None s))
          = Some (setData None e)) as He'.
  { rewrite assignData_state.
    destruct (findEntry_scan deref_eq g s) as [i|] eqn:Hf.
    - by rewrite (entryOf_alter_found _ (setData None) _ _ (λ _, eq_refl) Hf), He.
    - apply entryOf_None in Hf. congruence. }
  unfold ready. rewrite getData_entryOf, contains_entryOf, He', He. done.
Qed.

(** ** Generators of equal and of different value *)

Lemma findEntry_scan_equal_values g1 g2 s :
  deref_eq g1 g2 = true →
  findEntry_scan deref_eq g1 s = findEntry_scan deref_eq g2 s.
Proof.
  intros H12. induction s as [|a s IH]; [done|]. simpl.
  by rewrite (deref_eq_compat _ _ _ H12), IH.
Qed.

Lemma releaseData_loop_equal_values g1 g2 r s :
  deref_eq g1 g2 = true →
  releaseData_loop deref_eq g1 r s = releaseData_loop deref_eq g2 r s.
Proof.
  intros H12. induction s as [|a s IH]; [done|]. simpl.
  by rewrite (deref_eq_compat _ _ _ H12), IH.
Qed.

Lemma releaseData_loop_frame g g' r s :
  deref_eq g g' = false →
  entryOf deref_eq g' (releaseData_loop deref_eq g r s) = entryOf deref_eq g' s.
Proof.
  intros Hgg'. induction s as [|a s IH]; [done|]. simpl.
  destruct (deref_eq (generator a) g) eqn:Hag.
  - pose proof (different_values _ _ _ Hgg' Hag) as Hag'.
    case_bool_decide; rewrite !entryOf_cons; simpl; by rewrite Hag'.
  - rewrite !entryOf_cons. by rewrite IH.
Qed.

(** X9: a [requestData], [releaseData] or [assignData] for [g] leaves the
    entry of every generator of another value as it was, with its handle,
    its referencing objects and its data; a generator of another value
    that had no entry still has none. *)
Theorem calls_keep_entries_of_other_values g g' r d s :
  deref_eq g g' = false →
  entryOf deref_eq g' (state (requestData deref_eq g r s)) = entryOf deref_eq g' s
  ∧ entryOf deref_eq g' (state (releaseData deref_eq g r s)) = entryOf deref_eq g' s
  ∧ entryOf deref_eq g' (state (assignData deref_eq g d s)) = entryOf deref_eq g' s.
Proof.
  intros Hgg'. rewrite requestData_state, assignData_state, releaseData_eq.
  unfold state. simpl. split; [|split].
  - destruct (findEntry_scan deref_eq g s) as [i|] eqn:Hf.
    + apply (alter_found_frame g); [apply generator_addReference|done..].
    + rewrite entryOf_app, entryOf_cons. simpl. rewrite Hgg'.
      by destruct (entryOf deref_eq g' s).
  - by apply releaseData_loop_frame.
  - destruct (findEntry_scan deref_eq g s) as [i|] eqn:Hf; [|done].
    by apply (alter_found_frame g).
Qed.

(** X10: handles to equal generators are interchangeable as arguments:
    [contains], [getData], [releaseData] and [assignData] do the same with
    either, [requestData] returns the same with either, and does the same
    with either when it creates no entry. *)
Theorem equal_generators_are_interchangeable g1 g2 r d s :
  deref_eq g1 g2 = true →
  contains deref_eq g1 s = contains deref_eq g2 s
  ∧ getData deref_eq g1 s = getData deref_eq g2 s
  ∧ releaseData deref_eq g1 r s = releaseData deref_eq g2 r s
  ∧ assignData deref_eq g1 d s = assignData deref_eq g2 d s
  ∧ result (requestData deref_eq g1 r s) = result (requestData deref_eq g2 r s)
  ∧ (if result (requestData deref_eq g1 r s)
     then state (requestData deref_eq g1 r s) = s ++ [mkEntry g1 [r] None]
          ∧ state (requestData deref_eq g2 r s) = s ++ [mkEntry g2 [r] None]
     else requestData deref_eq g1 r s = requestData deref_eq g2 r s).
Proof.
  intros H12. pose proof (findEntry_scan_equal_values _ _ s H12) as Hf12.
  rewrite !contains_eq, !getData_eq, !releaseData_eq.
  rewrite (entryOf_equal_values _ _ s H12), (releaseData_loop_equal_values _ _ r s H12).
  rewrite Hf12.
  destruct (findEntry_scan deref_eq g2 s) as [i|] eqn:Hf2.
  - rewrite (requestData_found _ _ _ _ Hf12), (requestData_found _ _ _ _ Hf2).
    by rewrite (assignData_found _ _ _ _ Hf12), (assignData_found _ _ _ _ Hf2).
  - rewrite (requestData_new _ _ _ Hf12), (requestData_new _ _ _ Hf2).
    by rewrite (assignData_unknown _ _ _ Hf12), (assignData_unknown _ _ _ Hf2).
Qed.

(** X11: the data handed to [assignData] for a generator that has an
    entry is what [getData] returns afterwards, through that handle or
    through any handle to an equal generator. *)
Theorem getData_after_assignData g g2 d s :
  deref_eq g g2 = true →
  result (contains deref_eq g s) = true →
  result (getData deref_eq g2 (state (assignData deref_eq g d s))) = d.
Proof.
  intros H12 [e He]%contains_true.
  rewrite getData_entryOf, <- (entryOf_equal_values _ _ _ H12), assignData_state.
  destruct (findEntry_scan deref_eq g s) as [i|] eqn:Hf.
  - rewrite (entryOf_alter_found _ (setData d) _ _ (λ _, eq_refl) Hf), He. done.
  - apply entryOf_None in Hf. congruence.
Qed.

Lemma oneEntryPerValue_NoDup s :
  oneEntryPerValue deref_eq s → NoDup (generator <$> s).
Proof.
  induction s as [|a s IH]; [constructor|].
  intros [HU Ha]%oneEntryPerValue_cons. csimpl. apply NoDup_cons. split; [|auto].
  intros (e & Hg & He)%list_elem_of_fmap.
  specialize (Ha (generator a) (deref_eq_refl _)).
  apply entryOf_None_Forall in Ha. rewrite Forall_forall in Ha.
  specialize (Ha _ He). by rewrite <- Hg, deref_eq_refl in Ha.
Qed.

Lemma pendingGenerators_loop_NoDup_handles s (ret : list GeneratorPtr) :
  NoDup (generator <$> s) →
  (∀ e, e ∈ s → generator e ∉ ret) →
  pendingGenerators_loop s ret
  = ret ++ (generator <$> filter (λ e, data e = None) s).
Proof.
  revert ret. induction s as [|a s IH]; intros ret Hnd Hret.
  - simpl. by rewrite app_nil_r.
  - csimpl in Hnd. apply NoDup_cons in Hnd as [Ha Hnd]. simpl.
    rewrite (bool_decide_eq_false_2 (generator a ∈ ret)) by (apply Hret; left).
    rewrite filter_cons. case_bool_decide as Hd; simpl.
    + rewrite decide_True by done. rewrite IH; [by rewrite <- app_assoc|done|].
      intros e He [?|Heq%list_elem_of_singleton]%elem_of_app.
      * by apply (Hret e); [right|].
      * apply Ha. rewrite <- Heq. by apply list_elem_of_fmap_2.
    + rewrite decide_False by done. apply IH; [done|].
      intros e He. apply Hret. by right.
Qed.

(** X12: in every state that calls on a new manager can reach,
    [pendingGenerators()] returns the handles stored in the entries whose
    data is null, in the order of the entries in the vector. *)
Theorem pendingGenerators_in_creation_order
    (cs : list (Call GeneratorPtr Data ReferencedType)) :
  result (pendingGenerators (run deref_eq cs GeneratorDataManager))
  = generator <$> filter (λ e, data e = None) (run deref_eq cs GeneratorDataManager).
Proof.
  pose proof (run_wellFormed cs _ GeneratorDataManager_wellFormed) as (HU & _).
  rewrite pendingGenerators_eq. unfold result. simpl.
  rewrite pendingGenerators_loop_NoDup_handles; [done| |].
  - by apply oneEntryPerValue_NoDup.
  - intros e _. apply not_elem_of_nil.
Qed.

(** X13: in every state that calls on a new manager can reach, a listed
    generator has an entry and [getData] returns null for it; and a
    generator that has an entry for which [getData] returns null is listed
    under the handle that its entry stores. *)
Theorem pending_iff_entry_without_data
    (cs : list (Call GeneratorPtr Data ReferencedType)) g :
  (g ∈ result (pendingGenerators (run deref_eq cs GeneratorDataManager)) →
     result (contains deref_eq g (run deref_eq cs GeneratorDataManager)) = true
     ∧ result (getData deref_eq g (run deref_eq cs GeneratorDataManager)) = None)
  ∧ (result (contains deref_eq g (run deref_eq cs GeneratorDataManager)) = true →
     result (getData deref_eq g (run deref_eq cs GeneratorDataManager)) = None →
     ∃ e, entryOf deref_eq g (run deref_eq cs GeneratorDataManager) = Some e
          ∧ deref_eq (generator e) g = true
          ∧ generator e ∈
              result (pendingGenerators (run deref_eq cs GeneratorDataManager))).
Proof.
  pose proof (run_wellFormed cs _ GeneratorDataManager_wellFormed) as (HU & _).
  set (s := run deref_eq cs GeneratorDataManager) in *. split.
  - intros (e & (k & Hk)%list_elem_of_lookup & <- & Hd)%pendingGenerators_elem.
    rewrite contains_true, getData_entryOf. unfold entryOf.
    destruct (findEntry_scan deref_eq (generator e) s) as [i|] eqn:Hf.
    + pose proof Hf as (ei & Hi & Hm & _)%findEntry_scan_Some.
      assert (i = k) as ->.
      { eapply oneEntryPerValue_lookup; [done..|]. apply deref_eq_refl. }
      simpl. rewrite Hk. simpl. by split; [eexists|].
    + apply findEntry_scan_None in Hf. rewrite Forall_lookup in Hf.
      specialize (Hf _ _ Hk). by rewrite deref_eq_refl in Hf.
  - intros [e He]%contains_true Hd. rewrite getData_entryOf, He in Hd.
    exists e. destruct (entryOf_Some _ _ _ He) as [Hin Hm].
    split; [done|]. split; [done|]. apply pendingGenerators_elem. by exists e.
Qed.

End ValueEquality.

(** C7: when [operator==] on generators is reflexive, repeating
    [requestData(g, r)] returns [false] and leaves the cache as the first
    call left it; the entry for [g] holds [r], it holds only [r] when the
    first call created it, and a call stores no referencing object
    twice. *)
Theorem requestData_idempotent g r s :
  (∀ g', deref_eq g' g' = true) →
  result (requestData deref_eq g r (state (requestData deref_eq g r s))) = false
  ∧ state (requestData deref_eq g r (state (requestData deref_eq g r s)))
    = state (requestData deref_eq g r s)
  ∧ (∃ e, entryOf deref_eq g (state (requestData deref_eq g r s)) = Some e
          ∧ r ∈ referencingObjects e
          ∧ (result (requestData deref_eq g r s) = true → referencingObjects e = [r]))
  ∧ (referencesNoDup s → referencesNoDup (state (requestData deref_eq g r s))).
Proof.
  intros Hrefl. destruct (findEntry_scan deref_eq g s) as [i|] eqn:Hf.
  - rewrite (requestData_found _ _ _ _ Hf). unfold state, result. simpl.
    assert (findEntry_scan deref_eq g (alter (addReference r) i s) = Some i) as Hf'.
    { rewrite <- Hf. apply findEntry_scan_generators, fmap_alter_same,
        generator_addReference. }
    rewrite (requestData_found _ _ _ _ Hf'). simpl.
    split; [done|]. split; [|split].
    + rewrite list_alter_alter_eq. apply list_alter_ext; [|done].
      intros e _. apply addReference_idem.
    + rewrite (entryOf_alter_found _ _ _ _ (generator_addReference r) Hf).
      destruct (entryOf deref_eq g s) as [e|] eqn:He.
      * exists (addReference r e). split; [done|]. split; [|done].
        apply addReference_elem.
      * apply entryOf_None in He. congruence.
    + intros HN. apply Forall_alter; [done|]. intros e _ He.
      by apply addReference_NoDup.
  - rewrite (requestData_new _ _ _ Hf). unfold state, result. simpl.
    assert (findEntry_scan deref_eq g (s ++ [mkEntry g [r] None]) = Some (length s + 0))
      as Hf'.
    { rewrite (findEntry_scan_app_None _ _ _ Hf). simpl. by rewrite Hrefl. }
    rewrite (requestData_found _ _ _ _ Hf'). simpl.
    split; [done|]. split; [|split].
    + rewrite alter_app_r. simpl. unfold addReference. simpl.
      rewrite bool_decide_eq_true_2; [done|]. by apply list_elem_of_singleton.
    + exists (mkEntry g [r] None). apply entryOf_None in Hf.
      rewrite entryOf_app, Hf, entryOf_cons. simpl. rewrite Hrefl.
      split; [done|]. split; [|done]. by apply list_elem_of_singleton.
    + intros HN. apply Forall_app. split; [done|].
      constructor; [apply NoDup_singleton|constructor].
Qed.


(** ** Results of the calls *)

(** C1: [requestData(g, r)] returns [true] exactly when no entry whose
    generator compares equal, by value, to [g] was in the cache before the
    call, that is when [contains(g)] was [false]; it then appends the new
    entry.  When it returns [false] an entry is reused: the cache has the
    same number of entries with the same generators and the same data,
    pending or not. *)
Theorem requestData_true_iff_created g r s :
  (result (requestData deref_eq g r s) = true ↔
     Forall (λ e, deref_eq (generator e) g = false) s)
  ∧ result (requestData deref_eq g r s) = negb (result (contains deref_eq g s))
  ∧ (if result (requestData deref_eq g r s)
     then state (requestData deref_eq g r s) = s ++ [mkEntry g [r] None]
     else length (state (requestData deref_eq g r s)) = length s
          ∧ generator <$> state (requestData deref_eq g r s) = generator <$> s
          ∧ data <$> state (requestData deref_eq g r s) = data <$> s).
Proof.
  rewrite contains_eq. unfold result, state. simpl.
  destruct (findEntry_scan deref_eq g s) as [i|] eqn:Hf.
  - rewrite (requestData_found _ _ _ _ Hf). simpl. split; [|split].
    + split; [done|]. intros HF%findEntry_scan_None. congruence.
    + done.
    + rewrite length_alter. split; [done|].
      split; apply fmap_alter_same; intros e;
        [apply generator_addReference | apply data_addReference].
  - rewrite (requestData_new _ _ _ Hf). simpl. split; [|done].
    split; [|done]. intros _. by apply findEntry_scan_None.
Qed.

(** C6: [assignData(g, data)] for a generator with no value-equal entry in
    the cache leaves the warning between taking and giving back the mutex,
    fails no assertion, leaves the cache as it was, and [contains(g)] is
    still [false] afterwards. *)
Theorem assignData_unknown_generator g d s :
  Forall (λ e, deref_eq (generator e) g = false) s →
  assignData deref_eq g d s =
    ((), s, [Acquire;
             Warning "[TextureDataManager] assignData() called with non-existent generator";
             Release])
  ∧ result (contains deref_eq g (state (assignData deref_eq g d s))) = false.
Proof.
  intros Hf%findEntry_scan_None.
  rewrite (assignData_unknown _ _ _ Hf). split; [done|].
  rewrite contains_eq. unfold state, result. simpl. by rewrite Hf.
Qed.

(** C8: for a generator with no value-equal entry, [releaseData] leaves the
    cache as it was, [getData] returns the null handle and [contains]
    returns [false]; none of them warns or fails an assertion.  [getData]
    also returns the null handle for an entry whose data is not assigned. *)
Theorem not_found_is_total g r s :
  (Forall (λ e, deref_eq (generator e) g = false) s →
     releaseData deref_eq g r s = ((), s, [Acquire; Release])
     ∧ getData deref_eq g s = (None, s, [Acquire; Release])
     ∧ contains deref_eq g s = (false, s, []))
  ∧ (∀ e, entryOf deref_eq g s = Some e → data e = None →
     getData deref_eq g s = (None, s, [Acquire; Release])).
Proof.
  split.
  - intros HF. pose proof HF as Hf%findEntry_scan_None.
    rewrite releaseData_eq, getData_eq, contains_eq. unfold entryOf.
    rewrite Hf. simpl. split; [|done]. f_equal. f_equal.
    clear Hf. induction HF as [|e s He HF IH]; simpl; [done|].
    by rewrite He, IH.
  - intros e He Hd. rewrite getData_eq, He. simpl. by rewrite Hd.
Qed.

(** C9: five of the six public functions take the mutex first and give it
    back last, once each; [contains] calls [findEntry] without a
    [QMutexLocker] and leaves no event at all. *)
Theorem contains_takes_no_lock g r d s :
  trace (contains deref_eq g s) = []
  ∧ heldThroughout (trace (contains deref_eq g s)) = false
  ∧ heldThroughout (trace (requestData deref_eq g r s)) = true
  ∧ heldThroughout (trace (releaseData deref_eq g r s)) = true
  ∧ heldThroughout (trace (getData deref_eq g s)) = true
  ∧ heldThroughout (trace (pendingGenerators s)) = true
  ∧ heldThroughout (trace (assignData deref_eq g d s)) = true.
Proof.
  rewrite releaseData_eq, getData_eq, pendingGenerators_eq, contains_eq.
  destruct (findEntry_scan deref_eq g s) as [i|] eqn:Hf.
  - by rewrite (requestData_found _ _ _ _ Hf), (assignData_found _ _ _ _ Hf).
  - by rewrite (requestData_new _ _ _ Hf), (assignData_unknown _ _ _ Hf).
Qed.

(** C10: [getData], [contains] and [pendingGenerators] leave [m_data] as it
    was: the same entries in the same order, with the same generators,
    referencing objects and data. *)
Theorem queries_leave_cache_unchanged g s :
  state (getData deref_eq g s) = s
  ∧ state (contains deref_eq g s) = s
  ∧ state (pendingGenerators s) = s.
Proof. by rewrite getData_eq, contains_eq, pendingGenerators_eq. Qed.

(** ** Further properties of the calls *)

Lemma removeAll_absent r (l : list ReferencedType) : r ∉ l → removeAll r l = l.
Proof.
  unfold removeAll. induction l as [|x l IH]; [done|].
  intros [Hx Hl]%not_elem_of_cons. rewrite filter_cons_True by done.
  by rewrite IH.
Qed.

Lemma removeAll_removeAll r (l : list ReferencedType) :
  removeAll r (removeAll r l) = removeAll r l.
Proof.
  apply removeAll_absent. unfold removeAll. rewrite list_elem_of_filter.
  by intros [? _].
Qed.

Lemma removeAll_self r : removeAll r [r] = [].
Proof. unfold removeAll. rewrite filter_cons_False; [done|]. by intros H. Qed.

Lemma removeAll_snoc r (l : list ReferencedType) : r ∉ l → removeAll r (l ++ [r]) = l.
Proof.
  intros Hr. unfold removeAll. rewrite filter_app.
  fold (removeAll r l). fold (removeAll r [r]).
  by rewrite removeAll_absent, removeAll_self, app_nil_r.
Qed.

Lemma releaseData_loop_app_unknown g r s l :
  entryOf deref_eq g s = None →
  releaseData_loop deref_eq g r (s ++ l) = s ++ releaseData_loop deref_eq g r l.
Proof.
  induction s as [|a s IH]; [done|]. rewrite entryOf_cons. simpl.
  destruct (deref_eq (generator a) g); [done|]. intros Hs. by rewrite IH.
Qed.

Lemma releaseData_loop_undoes_addReference g r s i e :
  oneEntryPerValue deref_eq s → allReferenced s →
  findEntry_scan deref_eq g s = Some i → s !! i = Some e →
  r ∉ referencingObjects e →
  releaseData_loop deref_eq g r (alter (addReference r) i s) = s.
Proof.
  revert i. induction s as [|a s IH]; intros i HU HR Hf Hi Hr; [done|].
  apply oneEntryPerValue_cons in HU as [HU Ha].
  inversion HR as [|?? Hne HR']; subst. simpl in Hf.
  destruct (deref_eq (generator a) g) eqn:Hag.
  - simplify_eq/=. unfold addReference.
    rewrite bool_decide_eq_false_2 by done. simpl. rewrite Hag.
    rewrite removeAll_snoc by done.
    rewrite bool_decide_eq_false_2 by done.
    rewrite releaseData_loop_unknown by auto. by destruct e.
  - apply fmap_Some in Hf as (i' & Hi' & ->). simpl in *. rewrite Hag.
    f_equal. by apply IH.
Qed.

(** X1: [findEntry] reaches the entry of lowest index whose generator
    compares equal to the argument, and returns [nullptr] exactly when no
    entry does; it changes nothing and leaves no event. *)
Theorem findEntry_first_match g s :
  state (findEntry deref_eq g s) = s
  ∧ trace (findEntry deref_eq g s) = []
  ∧ match result (findEntry deref_eq g s) with
    | Some i =>
        ∃ e, s !! i = Some e ∧ deref_eq (generator e) g = true
             ∧ ∀ j e', j < i → s !! j = Some e' → deref_eq (generator e') g = false
    | None => ∀ e, e ∈ s → deref_eq (generator e) g = false
    end.
Proof.
  split; [done|]. split; [done|]. unfold findEntry, gets, result. simpl.
  destruct (findEntry_scan deref_eq g s) as [i|] eqn:Hf.
  - apply findEntry_scan_Some in Hf as (e & Hi & Hm & Hb). exists e.
    split; [done|]. split; [done|]. intros j e' Hj He'.
    rewrite Forall_lookup in Hb. apply (Hb j). by rewrite lookup_take_lt.
  - apply findEntry_scan_None in Hf. by rewrite Forall_forall in Hf.
Qed.

(** X2: when [r] does not yet reference [g], [requestData(g, r)] followed
    by [releaseData(g, r)] gives back the cache as it was, entry for entry:
    a new entry is erased again, an existing one loses [r] again. *)
Theorem request_release_restores g r s :
  deref_eq g g = true →
  oneEntryPerValue deref_eq s → allReferenced s →
  (∀ e, entryOf deref_eq g s = Some e → r ∉ referencingObjects e) →
  state (releaseData deref_eq g r (state (requestData deref_eq g r s))) = s.
Proof.
  intros Hg HU HR Hr. rewrite releaseData_eq, requestData_state.
  unfold state at 1. simpl.
  destruct (findEntry_scan deref_eq g s) as [i|] eqn:Hf.
  - pose proof Hf as (e & Hi & _)%findEntry_scan_Some.
    eapply releaseData_loop_undoes_addReference; [done..|].
    apply Hr. unfold entryOf. by rewrite Hf.
  - apply entryOf_None in Hf. rewrite releaseData_loop_app_unknown by done.
    simpl. rewrite Hg, removeAll_self. simpl. apply app_nil_r.
Qed.

(** X3: a generator that had no entry, once requested by [r], given its
    data and released by [r], leaves the cache as it was before the three
    calls. *)
Theorem request_assign_release_restores g r d s :
  deref_eq g g = true →
  result (contains deref_eq g s) = false →
  state (releaseData deref_eq g r
           (state (assignData deref_eq g d
                     (state (requestData deref_eq g r s))))) = s.
Proof.
  intros Hg Hn%contains_false. pose proof Hn as Hf%entryOf_None.
  rewrite releaseData_eq. unfold state at 1. simpl.
  rewrite (requestData_new _ _ _ Hf). unfold state at 2. simpl.
  assert (findEntry_scan deref_eq g (s ++ [mkEntry g [r] None]) = Some (length s + 0))
    as Hf'.
  { rewrite (findEntry_scan_app_None _ _ _ Hf). simpl. by rewrite Hg. }
  rewrite (assignData_found _ _ _ _ Hf'). unfold state. simpl.
  rewrite alter_app_r. simpl. rewrite releaseData_loop_app_unknown by done.
  simpl. rewrite Hg, removeAll_self. simpl. apply app_nil_r.
Qed.

(** X4: [requestData] never changes what [getData] returns, for any
    generator: the data of the entries it finds are kept and the entry it
    creates has null data. *)
Theorem requestData_keeps_getData g r g' s :
  result (getData deref_eq g' (state (requestData deref_eq g r s)))
  = result (getData deref_eq g' s).
Proof.
  rewrite !getData_entryOf, requestData_state.
  destruct (findEntry_scan deref_eq g s) as [i|].
  - destruct (entryOf_alter g' _ i s (generator_addReference r))
      as [->|(e & _ & -> & ->)]; [done|]. simpl. apply data_addReference.
  - rewrite entryOf_app. destruct (entryOf deref_eq g' s); [done|].
    rewrite entryOf_cons. simpl. by destruct (deref_eq g g').
Qed.

(** X5: two [assignData] calls for one generator leave the cache as the
    second alone would: the last data assigned is the one kept. *)
Theorem assignData_last_wins g d1 d2 s :
  state (assignData deref_eq g d2 (state (assignData deref_eq g d1 s)))
  = state (assignData deref_eq g d2 s).
Proof.
  rewrite !assignData_state.
  destruct (findEntry_scan deref_eq g s) as [i|] eqn:Hf.
  - assert (findEntry_scan deref_eq g (alter (setData d1) i s) = Some i) as ->.
    { rewrite <- Hf. by apply findEntry_scan_generators, fmap_alter_same. }
    rewrite list_alter_alter_eq. by apply list_alter_ext.
  - by rewrite Hf.
Qed.

(** X6: [releaseData] erases at most one entry in a call, and adds and
    reorders none: the generators left are a sublist of those before, at
    most one shorter. *)
Theorem releaseData_erases_at_most_one g r s :
  generator <$> state (releaseData deref_eq g r s) `sublist_of` generator <$> s
  ∧ length s ≤ S (length (state (releaseData deref_eq g r s))).
Proof.
  rewrite releaseData_eq. unfold state. simpl.
  induction s as [|a s [IH1 IH2]]; simpl; [split; [constructor|lia]|].
  destruct (deref_eq (generator a) g).
  - case_bool_decide.
    + split; [|lia]. by apply sublist_cons.
    + csimpl. split; [by apply sublist_skip|lia].
  - csimpl. split; [by apply sublist_skip|lia].
Qed.

(** X7: a second [releaseData(g, r)] changes nothing, when the cache holds
    at most one entry for each generator value. *)
Theorem releaseData_idempotent g r s :
  oneEntryPerValue deref_eq s →
  state (releaseData deref_eq g r (state (releaseData deref_eq g r s)))
  = state (releaseData deref_eq g r s).
Proof.
  rewrite !releaseData_eq. unfold state. simpl.
  induction s as [|a s IH]; [done|].
  intros [HU Ha]%oneEntryPerValue_cons. simpl.
  destruct (deref_eq (generator a) g) eqn:Hag.
  - case_bool_decide as Hobjs.
    + apply releaseData_loop_unknown. auto.
    + simpl. rewrite Hag, removeAll_removeAll.
      rewrite bool_decide_eq_false_2 by done. by rewrite IH.
  - simpl. rewrite Hag. by rewrite IH.
Qed.

(** X8: no call fails the assertion of [requestData], and the only
    warning is the one of [assignData] for a generator that has no
    entry. *)
Theorem only_assignData_warns (c : Call GeneratorPtr Data ReferencedType) s :
  (AssertFailure ∉ (exec deref_eq c s).2)
  ∧ ∀ msg, Warning msg ∈ (exec deref_eq c s).2 ↔
      msg = "[TextureDataManager] assignData() called with non-existent generator"
      ∧ ∃ g d, c = AssignData g d ∧ result (contains deref_eq g s) = false.
Proof.
  assert (∀ ev, ev ≠ Acquire → ev ≠ Release → ev ∉ [Acquire; Release]) as Hnone.
  { intros ev ?? [->|[->|[]%elem_of_nil]%elem_of_cons]%elem_of_cons; done. }
  destruct c as [g r|g r|g| |g d|g]; simpl;
    rewrite ?releaseData_eq, ?getData_eq, ?pendingGenerators_eq, ?contains_eq;
    unfold trace; simpl.
  - assert (trace (requestData deref_eq g r s) = [Acquire; Release]) as Ht.
    { destruct (findEntry_scan deref_eq g s) as [i|] eqn:Hf.
      - by rewrite (requestData_found _ _ _ _ Hf).
      - by rewrite (requestData_new _ _ _ Hf). }
    unfold trace in Ht. rewrite Ht. split; [by apply Hnone|].
    intros msg. split; [by intros ?%Hnone|]. by intros (_ & ? & ? & ? & _).
  - split; [by apply Hnone|].
    intros msg. split; [by intros ?%Hnone|]. by intros (_ & ? & ? & ? & _).
  - split; [by apply Hnone|].
    intros msg. split; [by intros ?%Hnone|]. by intros (_ & ? & ? & ? & _).
  - split; [by apply Hnone|].
    intros msg. split; [by intros ?%Hnone|]. by intros (_ & ? & ? & ? & _).
  - destruct (findEntry_scan deref_eq g s) as [i|] eqn:Hf.
    + rewrite (assignData_found _ _ _ _ Hf). simpl. split; [by apply Hnone|].
      intros msg. split; [by intros ?%Hnone|].
      intros (_ & g0 & d0 & [= <- <-] & Hc). rewrite contains_eq in Hc.
      unfold result in Hc. simpl in Hc. rewrite Hf in Hc. done.
    + rewrite (assignData_unknown _ _ _ Hf). simpl. split.
      * intros [?|[?|[?|[]%elem_of_nil]%elem_of_cons]%elem_of_cons]%elem_of_cons; done.
      * intros msg. split.
        -- intros [?|[[= ->]|[?|[]%elem_of_nil]%elem_of_cons]%elem_of_cons]%elem_of_cons;
             [done| |done].
           split; [done|]. exists g, d. split; [done|].
           rewrite contains_eq. unfold result. simpl. by rewrite Hf.
        -- intros [-> _]. right. left.
  - split; [apply not_elem_of_nil|].
    intros msg. split; [by intros []%elem_of_nil|]. by intros (_ & ? & ? & ? & _).
Qed.

Lemma pendingGenerators_loop_app s l (ret : list GeneratorPtr) :
  pendingGenerators_loop (s ++ l) ret
  = pendingGenerators_loop l (pendingGenerators_loop s ret).
Proof.
  revert ret. induction s as [|a s IH]; intros ret; [done|]. simpl.
  by destruct (bool_decide (data a = None) && negb (bool_decide (generator a ∈ ret))).
Qed.

Lemma pendingGenerators_loop_fields s s' (ret : list GeneratorPtr) :
  generator <$> s = generator <$> s' → data <$> s = data <$> s' →
  pendingGenerators_loop s ret = pendingGenerators_loop s' ret.
Proof.
  revert s' ret. induction s as [|a s IH]; intros [|a' s'] ret Hg Hd; try done.
  csimpl in *. injection Hg as Hga Hgs. injection Hd as Hda Hds.
  rewrite Hga, Hda.
  destruct (bool_decide (data a' = None) && negb (bool_decide (generator a' ∈ ret)));
    by apply IH.
Qed.

(** X14: when [*g == *g] holds, [requestData(g, r)] that returns [true]
    appends the handle [g] to what [pendingGenerators()] returns, and one
    that returns [false] leaves that list as it was, whatever handle the
    entry it finds stores. *)
Theorem pendingGenerators_after_requestData g r s :
  deref_eq g g = true →
  result (pendingGenerators (state (requestData deref_eq g r s)))
  = if result (requestData deref_eq g r s)
    then result (pendingGenerators s) ++ [g]
    else result (pendingGenerators s).
Proof.
  intros Hg. rewrite !pendingGenerators_eq. unfold result at 1 3 4. simpl.
  destruct (findEntry_scan deref_eq g s) as [i|] eqn:Hf.
  - rewrite (requestData_found _ _ _ _ Hf). unfold state, result. simpl.
    apply pendingGenerators_loop_fields; apply fmap_alter_same; intros e;
      [apply generator_addReference|apply data_addReference].
  - rewrite (requestData_new _ _ _ Hf). unfold state, result. simpl.
    rewrite pendingGenerators_loop_app. simpl.
    rewrite bool_decide_eq_false_2; [done|].
    intros [[]%elem_of_nil|(e & He & Hge & _)]%pendingGenerators_loop_elem.
    apply findEntry_scan_None in Hf. rewrite Forall_forall in Hf.
    specialize (Hf _ He). by rewrite Hge, Hg in Hf.
Qed.

Lemma exec_references (c : Call GeneratorPtr Data ReferencedType) s :
  allReferenced s ∧ referencesNoDup s →
  allReferenced (exec deref_eq c s).1 ∧ referencesNoDup (exec deref_eq c s).1.
Proof.
  intros [HR HN]. destruct c as [g r|g r|g| |g d|g]; simpl;
    rewrite ?getData_eq, ?requestData_state, ?assignData_state, ?releaseData_eq;
    unfold state; simpl; try done.
  - destruct (findEntry_scan deref_eq g s) as [i|].
    + split; (apply Forall_alter; [done|]); intros e _ He;
        [apply addReference_nonempty|by apply addReference_NoDup].
    + split; (apply Forall_app; split; [done|]); (constructor; [|constructor]);
        [done|apply NoDup_singleton].
  - split; [by apply releaseData_loop_allReferenced
           |by apply releaseData_loop_referencesNoDup].
  - destruct (findEntry_scan deref_eq g s) as [i|]; [|done].
    split; (apply Forall_alter; [done|]); by intros e _ He.
Qed.

(** X15: whatever [operator==] on generators is, in every state that
    calls on a new manager can reach each entry has at least one
    referencing object and holds none twice. *)
Theorem entries_are_referenced_without_duplicates
    (cs : list (Call GeneratorPtr Data ReferencedType)) :
  allReferenced (run deref_eq cs GeneratorDataManager)
  ∧ referencesNoDup (run deref_eq cs GeneratorDataManager).
Proof.
  assert (∀ s : list Entry, allReferenced s ∧ referencesNoDup s →
            allReferenced (run deref_eq cs s) ∧ referencesNoDup (run deref_eq cs s)) as H.
  { induction cs as [|c cs IH]; intros s Hs; [done|]. simpl.
    by apply IH, exec_references. }
  apply H. split; constructor.
Qed.

(** X16: [releaseData(g, r)] for an [r] that references no entry for [g]
    leaves the cache as it was, when every entry has a referencing
    object. *)
Theorem releaseData_absent_referencer g r s :
  allReferenced s →
  Forall (λ e, deref_eq (generator e) g = true → r ∉ referencingObjects e) s →
  state (releaseData deref_eq g r s) = s.
Proof.
  rewrite releaseData_eq. unfold state. simpl.
  induction 1 as [|a s Hne HR IH]; intros Hr; [done|].
  inversion Hr as [|?? Ha Hr']; subst. simpl.
  destruct (deref_eq (generator a) g) eqn:Hag.
  - rewrite removeAll_absent by auto. rewrite bool_decide_eq_false_2 by done.
    rewrite IH by done. by destruct a.
  - by rewrite IH.
Qed.

End Facts.

(** * The image data manager at work *)

Module Scenarios.

Import TextureImageDataManager.

Local Abbreviation new :=
  (@GeneratorDataManager QTextureImageDataGeneratorPtr QTextureImageData QNodeId).

Lemma deref_eq_equivalence : Equivalence (λ a b, deref_eq a b = true).
Proof.
  unfold deref_eq. split.
  - intros a. by apply bool_decide_eq_true.
  - intros a b Hab%bool_decide_eq_true. by apply bool_decide_eq_true.
  - intros a b c Hab%bool_decide_eq_true Hbc%bool_decide_eq_true.
    apply bool_decide_eq_true. congruence.
Qed.

(** The scenario of the documentation: two textures share one generator,
    the data arrives, and the textures go away one after the other. *)
Example shared_generator_lifecycle :
  result (requestData deref_eq gA 1 new) = true
  ∧ result (requestData deref_eq gA 2 (run deref_eq [RequestData gA 1] new)) = false
  ∧ result (getData deref_eq gA
      (run deref_eq [RequestData gA 1; RequestData gA 2] new)) = None
  ∧ result (getData deref_eq gA
      (run deref_eq [RequestData gA 1; RequestData gA 2; AssignData gA (Some 5)] new))
    = Some 5
  ∧ result (pendingGenerators
      (run deref_eq [RequestData gA 1; RequestData gA 2; AssignData gA (Some 5)] new))
    = []
  ∧ result (contains deref_eq gA
      (run deref_eq [RequestData gA 1; RequestData gA 2; AssignData gA (Some 5);
                     ReleaseData gA 1] new)) = true
  ∧ result (contains deref_eq gA
      (run deref_eq [RequestData gA 1; RequestData gA 2; AssignData gA (Some 5);
                     ReleaseData gA 1; ReleaseData gA 2] new)) = false
  ∧ result (getData deref_eq gA
      (run deref_eq [RequestData gA 1; RequestData gA 2; AssignData gA (Some 5);
                     ReleaseData gA 1; ReleaseData gA 2] new)) = None.
Proof. repeat split; reflexivity. Qed.

(** Two textures that ask for equal generators through different handles
    end up as the two referencing objects of one entry, which keeps the
    first handle. *)
Example textures_share_generator :
  run TextureDataManager.deref_eq [RequestData gA 41; RequestData gA' 42]
    (@GeneratorDataManager TextureDataManager.QTextureGeneratorPtr
       TextureDataManager.QTextureData TextureDataManager.GLTexturePtr)
  = [mkEntry gA [41; 42] None].
Proof. reflexivity. Qed.

(** Two handles to equal generators share one entry. *)
Lemma one_entry_per_generator_value_witness :
  gA ≠ gA' ∧ deref_eq gA gA' = true
  ∧ result (requestData deref_eq gA' 2 (run deref_eq (none ++ [RequestData gA 1]) new))
    = false
  ∧ length (entriesFor deref_eq gA
      (run deref_eq (none ++ [RequestData gA 1; RequestData gA' 2]) new)) = 1
  ∧ result (contains deref_eq gA'
      (run deref_eq (none ++ [RequestData gA 1; RequestData gA' 2]) new)) = true.
Proof.
  split; [done|]. split; [reflexivity|].
  destruct (one_entry_per_generator_value deref_eq deref_eq_equivalence
              none gA 1 gA' 2 eq_refl) as (_ & H2 & _ & H4 & _ & _ & H7).
  by repeat split.
Defined.

(** The last texture to go takes the entry with it. *)
Lemma entry_exists_iff_referenced_witness :
  allReferenced (run deref_eq shared new)
  ∧ result (contains deref_eq gA
      (state (releaseData deref_eq gA 1 (run deref_eq shared new)))) = true
  ∧ result (contains deref_eq gA
      (state (releaseData deref_eq gA 2 (run deref_eq sharedReleased new)))) = false.
Proof.
  destruct (entry_exists_iff_referenced deref_eq deref_eq_equivalence shared gA 1)
    as (H1 & _ & H3).
  destruct (entry_exists_iff_referenced deref_eq deref_eq_equivalence sharedReleased gA 2)
    as (_ & _ & H3').
  split; [exact H1|]. split.
  - exact (proj1 (H3 _ eq_refl)).
  - exact (proj1 (H3' _ eq_refl)).
Defined.

(** A generator with a null data handle stays listed; the statement that
    every [assignData] takes its generator off the list fails. *)
Lemma pending_after_null_assignData :
  ¬ ∀ d, gA ∉ result (pendingGenerators
                (run deref_eq [RequestData gA 1; AssignData gA d] new)).
Proof. intros H. apply (H None). vm_compute. left. Qed.

Lemma pendingGenerators_lists_pending_witness :
  result (contains deref_eq gA (run deref_eq other new)) = false
  ∧ Forall (λ c, givesDataTo deref_eq gA c = false) whileReferenced
  ∧ (∀ k, k ≤ length whileReferenced →
       result (contains deref_eq gA
         (run deref_eq (other ++ RequestData gA 1 :: take k whileReferenced) new))
       = true)
  ∧ gA ∈ result (pendingGenerators
           (run deref_eq (other ++ RequestData gA 1 :: whileReferenced) new))
  ∧ (gA' ∉ result (pendingGenerators
           (run deref_eq (other ++ [AssignData gA (Some 5)]) new))).
Proof.
  assert (Forall (λ c, givesDataTo deref_eq gA c = false) whileReferenced) as Hcs.
  { repeat constructor. }
  assert (∀ k, k ≤ length whileReferenced →
            result (contains deref_eq gA
              (run deref_eq (other ++ RequestData gA 1 :: take k whileReferenced) new))
            = true) as Hin.
  { intros [|[|[|[|[|k]]]]] Hk; [reflexivity..|]. simpl in Hk. lia. }
  destruct (pendingGenerators_lists_pending deref_eq deref_eq_equivalence
              other whileReferenced gA 1 5) as (_ & _ & H3 & H4 & _).
  destruct (H3 eq_refl) as (_ & _ & H3c).
  split; [reflexivity|]. split; [exact Hcs|]. split; [exact Hin|].
  split; [exact (H3c Hcs Hin)|exact (H4 gA' eq_refl)].
Defined.

(** An entry that holds data loses it to a null handle without being
    destroyed; the statement that no call clears the data of an entry
    that stays fails. *)
Lemma ready_entry_cleared_by_null_assignData :
  ¬ ∀ (cs : list TCall) (c : TCall) g,
      ready deref_eq g (run deref_eq cs new) = true →
      result (contains deref_eq g (exec deref_eq c (run deref_eq cs new)).1) = true →
      ready deref_eq g (exec deref_eq c (run deref_eq cs new)).1 = true.
Proof.
  intros H. specialize (H loaded (AssignData gA None) gA eq_refl eq_refl).
  vm_compute in H. discriminate H.
Qed.

Lemma ready_entry_stays_ready_witness :
  Forall (λ c, clearsDataOf deref_eq gA c = false) clearingOther
  ∧ ready deref_eq gA (run deref_eq loadedBoth new) = true
  ∧ (∀ k, k ≤ length clearingOther →
       result (contains deref_eq gA
         (run deref_eq (loadedBoth ++ take k clearingOther) new)) = true)
  ∧ ready deref_eq gB (run deref_eq (loadedBoth ++ clearingOther) new) = false
  ∧ ready deref_eq gA (run deref_eq (loadedBoth ++ clearingOther) new) = true
  ∧ ready deref_eq gA
      (run deref_eq ((loadedBoth ++ clearingOther) ++ [AssignData gA None]) new) = false
  ∧ result (contains deref_eq gA
      (run deref_eq ((loadedBoth ++ clearingOther) ++ [AssignData gA None]) new)) = true.
Proof.
  assert (Forall (λ c, clearsDataOf deref_eq gA c = false) clearingOther) as Hcs.
  { repeat constructor. }
  assert (∀ k, k ≤ length clearingOther →
            result (contains deref_eq gA
              (run deref_eq (loadedBoth ++ take k clearingOther) new)) = true) as Hin.
  { intros [|[|[|[|[|k]]]]] Hk; [reflexivity..|]. simpl in Hk. lia. }
  destruct (ready_entry_stays_ready deref_eq deref_eq_equivalence
              loadedBoth clearingOther gA Hcs eq_refl Hin) as (H1 & H2 & H3 & _).
  split; [exact Hcs|]. split; [reflexivity|]. split; [exact Hin|].
  split; [reflexivity|]. by repeat split.
Defined.

Lemma assignData_unknown_generator_witness :
  Forall (λ e : TEntry, deref_eq (generator e) gA = false) [mkEntry gB [1] None]
  ∧ assignData deref_eq gA (Some 5) [mkEntry gB [1] None] =
      ((), [mkEntry gB [1] None],
       [Acquire;
        Warning "[TextureDataManager] assignData() called with non-existent generator";
        Release])
  ∧ result (contains deref_eq gA
      (state (assignData deref_eq gA (Some 5) [mkEntry gB [1] None]))) = false.
Proof.
  assert (Forall (λ e : TEntry, deref_eq (generator e) gA = false) [mkEntry gB [1] None])
    as Hs.
  { repeat constructor. }
  split; [exact Hs|].
  exact (assignData_unknown_generator deref_eq gA (Some 5) [mkEntry gB [1] None] Hs).
Defined.

Lemma requestData_idempotent_witness :
  (∀ g, deref_eq g g = true)
  ∧ result (requestData deref_eq gA 1 new) = true
  ∧ result (requestData deref_eq gA 1 (state (requestData deref_eq gA 1 new))) = false
  ∧ state (requestData deref_eq gA 1 (state (requestData deref_eq gA 1 new)))
    = state (requestData deref_eq gA 1 new).
Proof.
  assert (∀ g, deref_eq g g = true) as Hrefl.
  { intros g. by apply bool_decide_eq_true. }
  destruct (requestData_idempotent deref_eq gA 1 new Hrefl) as (H1 & H2 & _).
  split; [exact Hrefl|]. split; [reflexivity|]. split; [exact H1|exact H2].
Defined.

Lemma not_found_is_total_witness :
  Forall (λ e : TEntry, deref_eq (generator e) gA = false) [mkEntry gB [1] (Some 6)]
  ∧ releaseData deref_eq gA 1 [mkEntry gB [1] (Some 6)]
    = ((), [mkEntry gB [1] (Some 6)], [Acquire; Release])
  ∧ getData deref_eq gA [mkEntry gB [1] (Some 6)]
    = (None, [mkEntry gB [1] (Some 6)], [Acquire; Release])
  ∧ contains deref_eq gA [mkEntry gB [1] (Some 6)]
    = (false, [mkEntry gB [1] (Some 6)], []).
Proof.
  assert (Forall (λ e : TEntry, deref_eq (generator e) gA = false)
            [mkEntry gB [1] (Some 6)]) as Hs.
  { repeat constructor. }
  split; [exact Hs|].
  exact (proj1 (not_found_is_total deref_eq gA 1 [mkEntry gB [1] (Some 6)]) Hs).
Defined.

(** ** Further scenarios *)

Lemma mixed_wellFormed : wellFormed deref_eq (run deref_eq mixed new).
Proof. apply run_wellFormed, GeneratorDataManager_wellFormed; apply deref_eq_equivalence. Qed.

Lemma request_release_restores_witness :
  deref_eq gA' gA' = true
  ∧ entryOf deref_eq gA' (run deref_eq mixed new) = Some (mkEntry gA [2] (Some 5))
  ∧ state (requestData deref_eq gA' 1 (run deref_eq mixed new))
    = [mkEntry gA [2; 1] (Some 5); mkEntry gB [3] None]
  ∧ state (releaseData deref_eq gA' 1
             (state (requestData deref_eq gA' 1 (run deref_eq mixed new))))
    = run deref_eq mixed new.
Proof.
  split; [reflexivity|]. split; [reflexivity|]. split; [reflexivity|].
  destruct mixed_wellFormed as (HU & HR & _).
  apply (request_release_restores deref_eq gA' 1 _ eq_refl HU HR).
  intros e He. vm_compute in He. injection He as <-. simpl.
  intros [?|[]%elem_of_nil]%elem_of_cons. done.
Defined.

Lemma request_assign_release_restores_witness :
  deref_eq gA gA = true
  ∧ result (contains deref_eq gA (run deref_eq other new)) = false
  ∧ state (releaseData deref_eq gA 1
             (state (assignData deref_eq gA (Some 5)
                       (state (requestData deref_eq gA 1 (run deref_eq other new))))))
    = run deref_eq other new.
Proof.
  split; [reflexivity|]. split; [reflexivity|].
  exact (request_assign_release_restores deref_eq gA 1 (Some 5)
           (run deref_eq other new) eq_refl eq_refl).
Defined.

Lemma releaseData_idempotent_witness :
  oneEntryPerValue deref_eq (run deref_eq shared new)
  ∧ state (releaseData deref_eq gA' 1 (run deref_eq shared new))
    = [mkEntry gA [2] None]
  ∧ state (releaseData deref_eq gA' 1
             (state (releaseData deref_eq gA' 1 (run deref_eq shared new))))
    = state (releaseData deref_eq gA' 1 (run deref_eq shared new)).
Proof.
  assert (oneEntryPerValue deref_eq (run deref_eq shared new)) as HU.
  { apply run_wellFormed, GeneratorDataManager_wellFormed; apply deref_eq_equivalence. }
  split; [exact HU|]. split; [reflexivity|].
  exact (releaseData_idempotent deref_eq gA' 1 _ HU).
Defined.

Lemma calls_keep_entries_of_other_values_witness :
  deref_eq gB gA' = false
  ∧ entryOf deref_eq gA' (run deref_eq mixed new) = Some (mkEntry gA [2] (Some 5))
  ∧ entryOf deref_eq gA' (state (requestData deref_eq gB 4 (run deref_eq mixed new)))
    = entryOf deref_eq gA' (run deref_eq mixed new)
  ∧ entryOf deref_eq gA' (state (releaseData deref_eq gB 3 (run deref_eq mixed new)))
    = entryOf deref_eq gA' (run deref_eq mixed new)
  ∧ entryOf deref_eq gA' (state (assignData deref_eq gB (Some 6) (run deref_eq mixed new)))
    = entryOf deref_eq gA' (run deref_eq mixed new).
Proof.
  split; [reflexivity|]. split; [reflexivity|].
  destruct (calls_keep_entries_of_other_values deref_eq deref_eq_equivalence
              gB gA' 4 (Some 6) (run deref_eq mixed new) eq_refl) as (H1 & _ & H3).
  destruct (calls_keep_entries_of_other_values deref_eq deref_eq_equivalence
              gB gA' 3 (Some 6) (run deref_eq mixed new) eq_refl) as (_ & H2 & _).
  by repeat split.
Defined.

Lemma equal_generators_are_interchangeable_witness :
  gA ≠ gA' ∧ deref_eq gA gA' = true
  ∧ getData deref_eq gA (run deref_eq mixed new)
    = getData deref_eq gA' (run deref_eq mixed new)
  ∧ releaseData deref_eq gA 2 (run deref_eq mixed new)
    = releaseData deref_eq gA' 2 (run deref_eq mixed new)
  ∧ assignData deref_eq gA None (run deref_eq mixed new)
    = assignData deref_eq gA' None (run deref_eq mixed new).
Proof.
  split; [done|]. split; [reflexivity|].
  destruct (equal_generators_are_interchangeable deref_eq deref_eq_equivalence
              gA gA' 2 None (run deref_eq mixed new) eq_refl) as (_ & H2 & H3 & H4 & _).
  by repeat split.
Defined.

Lemma getData_after_assignData_witness :
  deref_eq gA gA' = true
  ∧ result (contains deref_eq gA (run deref_eq shared new)) = true
  ∧ result (getData deref_eq gA'
              (state (assignData deref_eq gA (Some 5) (run deref_eq shared new))))
    = Some 5.
Proof.
  split; [reflexivity|]. split; [reflexivity|].
  exact (getData_after_assignData deref_eq deref_eq_equivalence
           gA gA' (Some 5) (run deref_eq shared new) eq_refl eq_refl).
Defined.

Lemma pendingGenerators_in_creation_order_witness :
  result (pendingGenerators (run deref_eq (other ++ shared) new)) = [gB; gA]
  ∧ result (pendingGenerators (run deref_eq (other ++ shared) new))
    = generator <$> filter (λ e, data e = None) (run deref_eq (other ++ shared) new).
Proof.
  split; [reflexivity|].
  exact (pendingGenerators_in_creation_order deref_eq deref_eq_equivalence
           (other ++ shared)).
Defined.

Lemma pending_iff_entry_without_data_witness :
  gB ∈ result (pendingGenerators (run deref_eq mixed new))
  ∧ result (contains deref_eq gB (run deref_eq mixed new)) = true
  ∧ result (getData deref_eq gB (run deref_eq mixed new)) = None.
Proof.
  assert (gB ∈ result (pendingGenerators (run deref_eq mixed new))) as Hp.
  { vm_compute. left. }
  split; [exact Hp|].
  exact (proj1 (pending_iff_entry_without_data deref_eq deref_eq_equivalence mixed gB) Hp).
Defined.

Lemma pendingGenerators_after_requestData_witness :
  deref_eq gB gB = true
  ∧ result (requestData deref_eq gB 1 (run deref_eq shared new)) = true
  ∧ result (pendingGenerators (state (requestData deref_eq gB 1 (run deref_eq shared new))))
    = [gA; gB]
  ∧ result (pendingGenerators (state (requestData deref_eq gB 1 (run deref_eq shared new))))
    = if result (requestData deref_eq gB 1 (run deref_eq shared new))
      then result (pendingGenerators (run deref_eq shared new)) ++ [gB]
      else result (pendingGenerators (run deref_eq shared new)).
Proof.
  split; [reflexivity|]. split; [reflexivity|]. split; [reflexivity|].
  exact (pendingGenerators_after_requestData deref_eq gB 1 (run deref_eq shared new)
           eq_refl).
Defined.

Lemma releaseData_absent_referencer_witness :
  allReferenced (run deref_eq mixed new)
  ∧ result (contains deref_eq gA (run deref_eq mixed new)) = true
  ∧ state (releaseData deref_eq gA 9 (run deref_eq mixed new)) = run deref_eq mixed new.
Proof.
  destruct mixed_wellFormed as (_ & HR & _).
  split; [exact HR|]. split; [reflexivity|].
  apply (releaseData_absent_referencer deref_eq gA 9 _ HR).
  repeat constructor; simpl; intros _ Hin; vm_compute in Hin;
    repeat (apply elem_of_cons in Hin as [Hin|Hin]; [discriminate Hin|]);
    by apply elem_of_nil in Hin.
Defined.

End Scenarios.
